(** * Scoring core of the KGQA evaluation scripts

    A shallow embedding of the count accumulation and metrics code of
    [run_metrics_to_csv.py] and [run_metrics_to_csv_DeepSeek.py].

    Python integers are [Z].  The results of Python's true division [/]
    are modelled as exact rationals [Q]: the rounding of binary floating
    point is abstracted away, the zero test of a divisor is kept, and the
    OverflowError of an integer quotient beyond the range of a double is
    not modelled.  Raised exceptions are values of an error monad. *)

From Stdlib Require Import ZArith QArith Lia Lqa.
From stdpp Require Import base option list gmap strings.

Local Open Scope Z_scope.

(** ** Python run-time behaviour used by the scripts *)
Module Py.

(** The exceptions that occur in the modelled code. *)
Inductive exn : Type :=
| TimeoutError
| QueryError
| UnboundLocalError (name : string)
| ZeroDivisionError.

Inductive result (A : Type) : Type :=
| Ok (a : A)
| Raise (e : exn).
Arguments Ok {A} a.
Arguments Raise {A} e.

#[export] Instance result_ret : MRet result := fun A a => Ok a.
#[export] Instance result_bind : MBind result := fun A B f r =>
  match r with
  | Ok a => f a
  | Raise e => Raise e
  end.

(** Truth value of [x] in [if x], for an optional string ([None] is an
    absent key or the value [None]). *)
Definition truthy (o : option string) : bool :=
  match o with
  | Some s => negb (String.eqb s "")
  | None => false
  end.

(** [a or b] *)
Definition or_ (a b : option string) : option string :=
  if truthy a then a else b.

(** [if n] for an integer and for a float. *)
Definition truthy_int (n : Z) : bool := negb (n =? 0).
Definition truthy_num (x : Q) : bool := negb (Qnum x =? 0).

(** [a / b] for integers: raises on a zero divisor. *)
Definition int_truediv (a b : Z) : result Q :=
  if b =? 0 then Raise ZeroDivisionError
  else Ok (inject_Z a / inject_Z b)%Q.

(** [x / y] for floats: raises on a zero divisor. *)
Definition truediv (x y : Q) : result Q :=
  if Qnum y =? 0 then Raise ZeroDivisionError
  else Ok (x / y)%Q.

End Py.
Import Py.

(** ** run_metrics_to_csv.py *)
Module RunMetrics.

(** The dictionary [{"TP": _, "FN": _, "FP": _, "TN": _}]. *)
Record Counts : Type := mkCounts { TP : Z; FN : Z; FP : Z; TN : Z }.

Definition zero_counts : Counts := mkCounts 0 0 0 0.

(** The dictionary returned by [compute_metrics]. *)
Record Metrics : Type := mkMetrics {
  support : Z;
  accuracy : Q;
  error_rate : Q;
  precision : Q;
  recall : Q;
  f1_score : Q;
  false_negative_rate : Q;
  false_positive_rate : Q
}.

(** [compute_metrics(counts)], lines 144-192.  A conditional expression
    evaluates its condition first and then only the chosen branch. *)
Definition compute_metrics (counts : Counts) : result Metrics :=
  let support := TP counts + FN counts + FP counts + TN counts in
  accuracy ←
    (if truthy_int support
     then int_truediv (TP counts + TN counts) support
     else Ok 0%Q);
  let error_rate := if truthy_int support then (1 - accuracy)%Q else 0%Q in
  precision ←
    (if truthy_int (TP counts + FP counts)
     then int_truediv (TP counts) (TP counts + FP counts)
     else Ok 0%Q);
  recall ←
    (if truthy_int (TP counts + FN counts)
     then int_truediv (TP counts) (TP counts + FN counts)
     else Ok 0%Q);
  f1_score ←
    (if truthy_num (precision + recall)%Q
     then truediv (2 * precision * recall)%Q (precision + recall)%Q
     else Ok 0%Q);
  fnr ←
    (if truthy_int (TP counts + FN counts)
     then int_truediv (FN counts) (TP counts + FN counts)
     else Ok 0%Q);
  fpr ←
    (if truthy_int (TP counts + FP counts)
     then int_truediv (FP counts) (TP counts + FP counts)
     else Ok 0%Q);
  Ok (mkMetrics support accuracy error_rate precision recall f1_score
                fnr fpr).

(** *** The count accumulation pass *)

(** A member of a result list of [safe_query]: a boolean of an ASK
    query or a result row, compared by value. *)
Inductive Row : Type :=
| AskRow (b : bool)
| ResultRow (cols : list string).

#[export] Instance Row_eq_dec : EqDecision Row.
Proof. solve_decision. Defined.

#[export] Instance Row_countable : Countable Row :=
  inj_countable'
    (fun r => match r with AskRow b => inl b | ResultRow cols => inr cols end)
    (fun x => match x with inl b => AskRow b | inr cols => ResultRow cols end)
    (fun r => match r with AskRow _ => eq_refl | ResultRow _ => eq_refl end).

(** A data point of the results file, with the keys the pass reads. *)
Record DataPoint : Type := mkDataPoint {
  sparql_response : option string;
  generated_sparql : option string;
  sparql : option string;
  question_type : option string
}.

(** The value of [type_counts[qtype]]. *)
Record LevelCounts : Type := mkLevelCounts {
  query_level : Counts;
  item_level : Counts
}.

Definition zero_level : LevelCounts := mkLevelCounts zero_counts zero_counts.

(** The local variables of [calculate_counts] that live across loop
    iterations.  [generated_results] and [sample_results] are bound by
    the first assignment that completes: [None] is an unbound local. *)
Record Locals : Type := mkLocals {
  overall_query : Counts;
  overall_item : Counts;
  type_counts : gmap string LevelCounts;
  generated_results : option (gset Row);
  sample_results : option (gset Row)
}.

(** Lines 92-94. *)
Definition init_locals : Locals :=
  mkLocals zero_counts zero_counts ∅ None None.

(** [c["TP"] += 1] and [c["FN"] += 1] *)
Definition incr_TP (c : Counts) : Counts :=
  mkCounts (TP c + 1) (FN c) (FP c) (TN c).
Definition incr_FN (c : Counts) : Counts :=
  mkCounts (TP c) (FN c + 1) (FP c) (TN c).

(** [c["TP"] += tp_items; c["FN"] += fn_items; c["FP"] += fp_items] *)
Definition add_items (c : Counts) (tp_items fn_items fp_items : Z) : Counts :=
  mkCounts (TP c + tp_items) (FN c + fn_items) (FP c + fp_items) (TN c).

(** Field-wise addition of a whole [Counts] into a running total:
    [acc[k] += c[k]] for each of the four keys. *)
Definition fold (acc c : Counts) : Counts :=
  mkCounts (TP acc + TP c) (FN acc + FN c) (FP acc + FP c) (TN acc + TN c).

Definition on_query_level (f : Counts → Counts) (lc : LevelCounts) : LevelCounts :=
  mkLevelCounts (f (query_level lc)) (item_level lc).
Definition on_item_level (f : Counts → Counts) (lc : LevelCounts) : LevelCounts :=
  mkLevelCounts (query_level lc) (f (item_level lc)).

(** Lines 117-118, 120-121 and 123-124: the same update on the overall
    query-level counts and on those of [type_counts[qtype]] (the key is
    present, see lines 105-109). *)
Definition bump_query (f : Counts → Counts) (qtype : string) (L : Locals) : Locals :=
  mkLocals (f (overall_query L)) (overall_item L)
           (alter (on_query_level f) qtype (type_counts L))
           (generated_results L) (sample_results L).

Definition set_generated_results (s : gset Row) (L : Locals) : Locals :=
  mkLocals (overall_query L) (overall_item L) (type_counts L)
           (Some s) (sample_results L).
Definition set_sample_results (s : gset Row) (L : Locals) : Locals :=
  mkLocals (overall_query L) (overall_item L) (type_counts L)
           (generated_results L) (Some s).

(** Lines 127-129. *)
Definition item_counts (generated sample : gset Row) : Z * Z * Z :=
  (Z.of_nat (size (generated ∩ sample)),
   Z.of_nat (size (sample ∖ generated)),
   Z.of_nat (size (generated ∖ sample))).

(** Lines 127-136: reading an unbound local raises. *)
Definition item_eval (qtype : string) (L : Locals) : result Locals :=
  match generated_results L with
  | None => Raise (UnboundLocalError "generated_results")
  | Some generated =>
    match sample_results L with
    | None => Raise (UnboundLocalError "sample_results")
    | Some sample =>
      let '(tp_items, fn_items, fp_items) := item_counts generated sample in
      Ok (mkLocals (overall_query L)
            (add_items (overall_item L) tp_items fn_items fp_items)
            (alter (on_item_level
                      (fun c => add_items c tp_items fn_items fp_items))
                   qtype (type_counts L))
            (generated_results L) (sample_results L))
    end
  end.

Section Pass.
(** The graph store: [safe_query] returns a list of rows or raises,
    and may change the state of the store. *)
Context {G : Type}.
Variable safe_query : G → string → G * result (list Row).

(** Lines 112-124, the [try] statement. *)
Definition query_eval (qtype response sample_query : string)
    (g : G) (L : Locals) : G * Locals :=
  match safe_query g response with
  | (g1, Raise _) => (g1, bump_query incr_FN qtype L)
  | (g1, Ok rows1) =>
    let L1 := set_generated_results (list_to_set rows1) L in
    match safe_query g1 sample_query with
    | (g2, Raise _) => (g2, bump_query incr_FN qtype L1)
    | (g2, Ok rows2) =>
      let L2 := set_sample_results (list_to_set rows2) L1 in
      if decide ((list_to_set rows1 : gset Row) = list_to_set rows2)
      then (g2, bump_query incr_TP qtype L2)
      else (g2, bump_query incr_FN qtype L2)
    end
  end.

(** The key lookups of lines 99-103. *)
Definition response_of (data_point : DataPoint) : option string :=
  or_ (sparql_response data_point) (generated_sparql data_point).
Definition qtype_of (data_point : DataPoint) : string :=
  default "unknown"%string (question_type data_point).

(** Lines 105-109. *)
Definition ensure_bucket (qtype : string) (L : Locals) : Locals :=
  match type_counts L !! qtype with
  | Some _ => L
  | None =>
    mkLocals (overall_query L) (overall_item L)
             (<[qtype := zero_level]> (type_counts L))
             (generated_results L) (sample_results L)
  end.

(** The body of the loop, lines 98-136. *)
Definition step (g : G) (L : Locals) (data_point : DataPoint)
    : result (G * Locals) :=
  let response := response_of data_point in
  let sample_query := sparql data_point in
  let qtype := qtype_of data_point in
  let L := ensure_bucket qtype L in
  match response, sample_query with
  | Some r, Some q =>
    if truthy response && truthy sample_query then
      let '(g', L') := query_eval qtype r q g L in
      L'' ← item_eval qtype L';
      Ok (g', L'')
    else Ok (g, L)
  | _, _ => Ok (g, L)
  end.

Fixpoint loop (g : G) (L : Locals) (results : list DataPoint)
    : result (G * Locals) :=
  match results with
  | [] => Ok (g, L)
  | data_point :: rest =>
    '(g', L') ← step g L data_point;
    loop g' L' rest
  end.

(** [calculate_counts(results)], lines 84-138, with the final state of
    the graph store. *)
Definition calculate_counts (g : G) (results : list DataPoint)
    : result (G * (Counts * Counts * gmap string LevelCounts)) :=
  '(g', L) ← loop g init_locals results;
  Ok (g', (overall_query L, overall_item L, type_counts L)).
End Pass.

(** *** The per question type analysis of [main] *)

(** The dictionary [avg_item] of lines 257-264. *)
Record AvgCounts : Type := mkAvgCounts {
  avg_TP : Q; avg_FN : Q; avg_FP : Q; avg_TN : Q
}.

(** A value of [per_type_analysis], lines 265-271. *)
Record Analysis : Type := mkAnalysis {
  query_level_counts : Counts;
  query_level_metrics : Metrics;
  item_level_counts : Counts;
  item_level_metrics : Metrics;
  average_item_counts_per_query : AvgCounts
}.

(** Lines 250-264. *)
Definition average_item_counts (query_counts item_counts : Counts)
    : result AvgCounts :=
  let valid_queries :=
    TP query_counts + FN query_counts + FP query_counts + TN query_counts in
  if truthy_int valid_queries then
    a ← int_truediv (TP item_counts) valid_queries;
    b ← int_truediv (FN item_counts) valid_queries;
    c ← int_truediv (FP item_counts) valid_queries;
    d ← int_truediv (TN item_counts) valid_queries;
    Ok (mkAvgCounts a b c d)
  else Ok (mkAvgCounts 0 0 0 0).

(** The body of the loop of lines 245-271. *)
Definition analyse (counts : LevelCounts) : result Analysis :=
  let query_counts := query_level counts in
  let item_counts := item_level counts in
  query_metrics ← compute_metrics query_counts;
  item_metrics ← compute_metrics item_counts;
  avg_item ← average_item_counts query_counts item_counts;
  Ok (mkAnalysis query_counts query_metrics item_counts item_metrics avg_item).

(** The loop of lines 244-271 over [type_counts.items()]. *)
Fixpoint analyse_items (items : list (string * LevelCounts))
    (per_type_analysis : gmap string Analysis)
    : result (gmap string Analysis) :=
  match items with
  | [] => Ok per_type_analysis
  | (qtype, counts) :: rest =>
    a ← analyse counts;
    analyse_items rest (<[qtype := a]> per_type_analysis)
  end.

Definition per_type_analysis (type_counts : gmap string LevelCounts)
    : result (gmap string Analysis) :=
  analyse_items (map_to_list type_counts) ∅.

Definition zero_metrics : Metrics := mkMetrics 0 0 0 0 0 0 0 0.

End RunMetrics.

(** ** run_metrics_to_csv_DeepSeek.py *)
Module DeepSeek.

(** The dictionary [{"TP": _, "FN": _, "FP": _}]. *)
Record Counts : Type := mkCounts { TP : Z; FN : Z; FP : Z }.

Definition zero_counts : Counts := mkCounts 0 0 0.

(** A value of the keys ["answer"] and ["deepseek-answer"]: a boolean
    or a list of answer strings. *)
Inductive Answer : Type :=
| ABool (b : bool)
| AList (items : list string).

Record DataPoint : Type := mkDataPoint {
  question_type : option string;
  answer : option Answer;
  deepseek_answer : option Answer
}.

(** Lines 24-31: the gold answers as a set; an answer that is not a
    list gives the empty set. *)
Definition gold_set (data_point : DataPoint) : gset string :=
  match answer data_point with
  | None => list_to_set []
  | Some (AList items) => list_to_set items
  | Some (ABool _) => ∅
  end.

Definition yes_no (b : bool) : gset string :=
  if b then {["yes"%string]} else {["no"%string]}.

(** Lines 24-38: the pair [(correct_answers, deepseek_answer)] that is
    compared. *)
Definition normalize (data_point : DataPoint) : gset string * gset string :=
  let correct_answers := gold_set data_point in
  match deepseek_answer data_point with
  | Some (ABool b) =>
    (yes_no (bool_decide ("YES"%string ∈ correct_answers)), yes_no b)
  | Some (AList items) => (correct_answers, list_to_set items)
  | None => (correct_answers, list_to_set [])
  end.

(** Lines 51-53. *)
Definition item_counts (correct_answers deepseek_answer : gset string)
    : Z * Z * Z :=
  (Z.of_nat (size (correct_answers ∩ deepseek_answer)),
   Z.of_nat (size (correct_answers ∖ deepseek_answer)),
   Z.of_nat (size (deepseek_answer ∖ correct_answers))).

(** Lines 56-58 and 60-62: [c["TP"] += tp_items] and so on. *)
Definition fold (c : Counts) (items : Z * Z * Z) : Counts :=
  let '(tp_items, fn_items, fp_items) := items in
  mkCounts (TP c + tp_items) (FN c + fn_items) (FP c + fp_items).

(** Lines 40-41. *)
Definition ensure_bucket (qtype : string) (type_counts : gmap string Counts)
    : gmap string Counts :=
  match type_counts !! qtype with
  | Some _ => type_counts
  | None => <[qtype := zero_counts]> type_counts
  end.

(** The body of the loop, lines 21-62, on the pair
    [(overall_counts, type_counts)]. *)
Definition step (st : Counts * gmap string Counts) (data_point : DataPoint)
    : Counts * gmap string Counts :=
  let '(overall_counts, type_counts) := st in
  let qtype := default "unknown"%string (question_type data_point) in
  let '(correct_answers, deepseek_answer) := normalize data_point in
  let type_counts := ensure_bucket qtype type_counts in
  let items := item_counts correct_answers deepseek_answer in
  (fold overall_counts items,
   alter (fun c => fold c items) qtype type_counts).

(** [calculate_item_metrics(results)], lines 11-64. *)
Definition calculate_item_metrics (results : list DataPoint)
    : Counts * gmap string Counts :=
  foldl step (zero_counts, ∅) results.

(** The dictionary returned by [compute_metrics]. *)
Record Metrics : Type := mkMetrics {
  precision : Q;
  recall : Q;
  f1_score : Q;
  m_TP : Z;
  m_FN : Z;
  m_FP : Z
}.

(** [compute_metrics(counts)], lines 70-89. *)
Definition compute_metrics (counts : Counts) : result Metrics :=
  let '(tp, fn, fp) := (TP counts, FN counts, FP counts) in
  precision ←
    (if truthy_int (tp + fp) then int_truediv tp (tp + fp) else Ok 0%Q);
  recall ←
    (if truthy_int (tp + fn) then int_truediv tp (tp + fn) else Ok 0%Q);
  f1_score ←
    (if truthy_num (precision + recall)%Q
     then truediv (2 * precision * recall)%Q (precision + recall)%Q
     else Ok 0%Q);
  Ok (mkMetrics precision recall f1_score tp fn fp).

End DeepSeek.

(** ** Concrete data sets *)
Module Scenario.
Import RunMetrics.

(** A graph store without state in which the query ["SLOW"] times out
    and every other query returns the row of its own text and the row
    ["x"]. *)
Definition safe_query (g : unit) (query : string)
    : unit * result (list Row) :=
  if String.eqb query "SLOW" then (g, Raise TimeoutError)
  else (g, Ok [ResultRow [query]; ResultRow ["x"%string]]).

(** The candidate query times out. *)
Definition timeout_case : DataPoint :=
  mkDataPoint (Some "SLOW"%string) None (Some "GOLD"%string)
              (Some "director"%string).

(** Candidate and gold query are the same query. *)
Definition matching_case : DataPoint :=
  mkDataPoint (Some "GOLD"%string) None (Some "GOLD"%string)
              (Some "director"%string).

(** The candidate query is absent under both keys. *)
Definition missing_case : DataPoint :=
  mkDataPoint None None (Some "GOLD"%string) (Some "director"%string).

(** A matching case of another question type. *)
Definition genre_case : DataPoint :=
  mkDataPoint None (Some "GOLD"%string) (Some "GOLD"%string)
              (Some "genre"%string).

(** Gold boolean [True], candidate boolean [False]. *)
Definition bool_case : DeepSeek.DataPoint :=
  DeepSeek.mkDataPoint (Some "yesno"%string)
    (Some (DeepSeek.ABool true)) (Some (DeepSeek.ABool false)).

(** Gold list [["YES"]], candidate boolean [False]. *)
Definition yes_case : DeepSeek.DataPoint :=
  DeepSeek.mkDataPoint (Some "yesno"%string)
    (Some (DeepSeek.AList ["YES"%string])) (Some (DeepSeek.ABool false)).

End Scenario.

(** ** The result filter of [safe_query] *)
Module GraphStore.
Import RunMetrics.

(** A member of the result object of [self.graph.query]: a boolean, a
    result row, or anything else. *)
Inductive ResultItem : Type :=
| BoolItem (b : bool)
| RowItem (cols : list string)
| OtherItem.

(** The result object: its [type] attribute and the members an
    iteration over it yields. *)
Record QueryResult : Type := mkQueryResult {
  res_type : string;
  members : list ResultItem
}.

(** Lines 75-78 of [safe_query] (the same code is [query] in
    streamlit/graph.py, lines 42-45): the list that is returned. *)
Definition returned_rows (res : QueryResult) : list Row :=
  if String.eqb (res_type res) "ASK" then
    omap (fun r => match r with BoolItem b => Some (AskRow b) | _ => None end)
         (members res)
  else
    omap (fun r => match r with
                   | RowItem cols => Some (ResultRow cols)
                   | _ => None
                   end)
         (members res).

End GraphStore.

(** ** The analysis of [main] in run_metrics_to_csv.py *)
Module Report.
Import RunMetrics.

(** The values [main] computes between line 220 and line 271. *)
Record Analysed : Type := mkAnalysed {
  overall_query_counts : Counts;
  overall_item_counts : Counts;
  overall_query_metrics : Metrics;
  overall_item_metrics : Metrics;
  avg_item_counts_overall : AvgCounts;
  per_type : gmap string Analysis
}.

(** Lines 222-271, from the counts on; lines 227-241 are the code of
    lines 250-264 on the overall counts. *)
Definition analyse_counts (overall_query_counts overall_item_counts : Counts)
    (type_counts : gmap string LevelCounts) : result Analysed :=
  overall_query_metrics ← compute_metrics overall_query_counts;
  overall_item_metrics ← compute_metrics overall_item_counts;
  avg_item_counts_overall ←
    average_item_counts overall_query_counts overall_item_counts;
  per_type ← per_type_analysis type_counts;
  Ok (mkAnalysed overall_query_counts overall_item_counts
        overall_query_metrics overall_item_metrics
        avg_item_counts_overall per_type).

(** Lines 220-271. *)
Definition analysis {G : Type}
    (safe_query : G → string → G * result (list Row))
    (g : G) (results : list DataPoint) : result (G * Analysed) :=
  '(g', (overall_query_counts, overall_item_counts, type_counts)) ←
    calculate_counts safe_query g results;
  a ← analyse_counts overall_query_counts overall_item_counts type_counts;
  Ok (g', a).

End Report.

(** ** Totals used to state the properties *)
Module Totals.
Import RunMetrics.

(** The case is evaluated: line 111 of run_metrics_to_csv.py holds. *)
Definition evaluated (data_point : DataPoint) : bool :=
  truthy (response_of data_point) && truthy (sparql data_point).

(** The field-wise sum of one level of all buckets. *)
Definition sum_buckets (level : LevelCounts → Counts)
    (type_counts : gmap string LevelCounts) : Counts :=
  map_fold (fun _ lc acc => fold acc (level lc)) zero_counts type_counts.

Definition nonneg (c : Counts) : Prop :=
  0 ≤ TP c ∧ 0 ≤ FN c ∧ 0 ≤ FP c ∧ 0 ≤ TN c.

(** The field-wise sum of the buckets of the DeepSeek script. *)
Definition deepseek_sum_buckets (type_counts : gmap string DeepSeek.Counts)
    : DeepSeek.Counts :=
  map_fold (fun _ c acc =>
              DeepSeek.fold acc (DeepSeek.TP c, DeepSeek.FN c, DeepSeek.FP c))
           DeepSeek.zero_counts type_counts.

(** The number of distinct gold answers and of distinct candidate
    answers over a data set, after normalization. *)
Definition gold_total (results : list DeepSeek.DataPoint) : Z :=
  Z.of_nat (sum_list_with (fun d => size (DeepSeek.normalize d).1) results).
Definition candidate_total (results : list DeepSeek.DataPoint) : Z :=
  Z.of_nat (sum_list_with (fun d => size (DeepSeek.normalize d).2) results).

(** The counts are below [2^1023]: divided by a positive integer they
    stay within the range of a double, where [/] on integers does not
    raise OverflowError. *)
Definition in_double_range (c : Counts) : Prop :=
  TP c < 2 ^ 1023 ∧ FN c < 2 ^ 1023 ∧ FP c < 2 ^ 1023 ∧ TN c < 2 ^ 1023.

(** A graph store in which no query raises. *)
Definition reliable_query (g : nat) (query : string)
    : nat * result (list Row) :=
  (S g, Ok [ResultRow [query]]).

End Totals.

(** ** error.py *)
Module ErrorExport.
Import RunMetrics.

(** The question type of line 109. *)
Definition designated : string := "actor_to_movie_constraint_year".

Section ExportLoop.
Context {G : Type}.
Variable safe_query : G → string → G * result (list Row).

(** Lines 119-132: whether the data point is appended to
    [wrong_data_points]. *)
Definition wrong (g : G) (data_point : DataPoint) : G * bool :=
  let response := response_of data_point in
  let sample_query := sparql data_point in
  match response, sample_query with
  | Some r, Some q =>
    if truthy response && truthy sample_query then
      match safe_query g r with
      | (g1, Raise _) => (g1, true)
      | (g1, Ok rows1) =>
        match safe_query g1 q with
        | (g2, Raise _) => (g2, true)
        | (g2, Ok rows2) =>
          (g2, bool_decide ((list_to_set rows1 : gset Row)
                            ≠ list_to_set rows2))
        end
      end
    else (g, true)
  | _, _ => (g, true)
  end.

(** The loop of lines 104-132, with the final state of the graph store
    and [wrong_data_points]. *)
Fixpoint export_loop (g : G) (results : list DataPoint)
    : G * list DataPoint :=
  match results with
  | [] => (g, [])
  | data_point :: rest =>
    if bool_decide (qtype_of data_point ≠ designated) then
      export_loop g rest
    else
      let '(g1, w) := wrong g data_point in
      let '(g2, wrong_data_points) := export_loop g1 rest in
      (g2, if w then data_point :: wrong_data_points
           else wrong_data_points)
  end.
End ExportLoop.

End ErrorExport.

(** ** A graph store without state *)
Module PureStore.
Import RunMetrics.

(** The store answers a query by a function of the query text. *)
Definition store (f : string → result (list Row)) (g : unit) (query : string)
    : unit * result (list Row) :=
  (g, f query).

(** Both queries return and their result sets are equal. *)
Definition agree (f : string → result (list Row)) (r q : string) : bool :=
  match f r with
  | Ok rows1 =>
    match f q with
    | Ok rows2 =>
      bool_decide ((list_to_set rows1 : gset Row) = list_to_set rows2)
    | Raise _ => false
    end
  | Raise _ => false
  end.

(** The data point has both query strings and they agree. *)
Definition matched (f : string → result (list Row)) (data_point : DataPoint)
    : bool :=
  match response_of data_point, sparql data_point with
  | Some r, Some q =>
    truthy (response_of data_point) && truthy (sparql data_point)
    && agree f r q
  | _, _ => false
  end.

(** The query-level TP of the bucket of a question type, 0 without a
    bucket. *)
Definition bucket_tp (type_counts : gmap string LevelCounts) (qtype : string)
    : Z :=
  TP (query_level (default zero_level (type_counts !! qtype))).

End PureStore.

(** * Properties *)

Import RunMetrics.

(** ** The metrics calculation *)

Section Division.

Lemma truthy_int_false (n : Z) : truthy_int n = false ↔ n = 0.
Proof. unfold truthy_int. destruct (Z.eqb_spec n 0); naive_solver. Qed.

Lemma truthy_num_false (x : Q) : truthy_num x = false ↔ (x == 0)%Q.
Proof.
  unfold truthy_num, Qeq. simpl. rewrite Z.mul_1_r.
  destruct (Z.eqb_spec (Qnum x) 0); naive_solver.
Qed.

(** A guarded integer division never raises. *)
Lemma guarded_int_truediv (a b : Z) :
  (if truthy_int b then int_truediv a b else Ok 0%Q)
  = Ok (if decide (b = 0) then 0%Q else (inject_Z a / inject_Z b)%Q).
Proof.
  unfold truthy_int, int_truediv.
  destruct (Z.eqb_spec b 0); simpl; case_decide; done.
Qed.

(** A guarded float division never raises. *)
Lemma guarded_truediv (x y : Q) :
  (if truthy_num y then truediv x y else Ok 0%Q)
  = Ok (if Qeq_dec y 0 then 0%Q else (x / y)%Q).
Proof.
  unfold truthy_num, truediv.
  destruct (Qeq_dec y 0) as [Hy | Hy];
    destruct (Z.eqb_spec (Qnum y) 0) as [Hn | Hn]; simpl; try done.
  - exfalso. apply Hn. unfold Qeq in Hy. simpl in Hy. lia.
  - exfalso. apply Hy. unfold Qeq. simpl. lia.
Qed.

Lemma ratio_bounds (a b : Z) :
  0 ≤ a → a ≤ b → b ≠ 0 →
  (0 <= inject_Z a / inject_Z b)%Q ∧ (inject_Z a / inject_Z b <= 1)%Q.
Proof.
  intros Ha Hab Hb.
  assert (Hpos : (0 < inject_Z b)%Q).
  { replace 0%Q with (inject_Z 0) by done. rewrite <- Zlt_Qlt. lia. }
  split.
  - apply Qle_shift_div_l; [done |].
    rewrite Qmult_0_l. replace 0%Q with (inject_Z 0) by done.
    rewrite <- Zle_Qle. lia.
  - apply Qle_shift_div_r; [done |].
    rewrite Qmult_1_l. rewrite <- Zle_Qle. lia.
Qed.

Lemma guarded_ratio_bounds (a b : Z) :
  0 ≤ a → a ≤ b →
  let q := if decide (b = 0) then 0%Q else (inject_Z a / inject_Z b)%Q in
  (0 <= q)%Q ∧ (q <= 1)%Q.
Proof.
  intros Ha Hab q. subst q. case_decide.
  - split; [apply Qle_refl | done].
  - by apply ratio_bounds.
Qed.

Lemma f1_bounds (p r : Q) :
  (0 <= p)%Q → (p <= 1)%Q → (0 <= r)%Q → (r <= 1)%Q →
  let f := if Qeq_dec (p + r) 0 then 0%Q else (2 * p * r / (p + r))%Q in
  (0 <= f)%Q ∧ (f <= 1)%Q.
Proof.
  intros Hp0 Hp1 Hr0 Hr1 f. subst f.
  destruct (Qeq_dec (p + r) 0) as [Hz | Hnz].
  - split; [apply Qle_refl | done].
  - assert (Hpos : (0 < p + r)%Q).
    { apply Qnot_le_lt. intros Hle. apply Hnz. lra. }
    split.
    + apply Qle_shift_div_l; [done |]. nra.
    + apply Qle_shift_div_r; [done |]. nra.
Qed.

End Division.

(** The result of [compute_metrics] in closed form. *)
Lemma compute_metrics_eq (c : Counts) :
  let s := TP c + FN c + FP c + TN c in
  let acc := if decide (s = 0) then 0%Q
             else (inject_Z (TP c + TN c) / inject_Z s)%Q in
  let p := if decide (TP c + FP c = 0) then 0%Q
           else (inject_Z (TP c) / inject_Z (TP c + FP c))%Q in
  let r := if decide (TP c + FN c = 0) then 0%Q
           else (inject_Z (TP c) / inject_Z (TP c + FN c))%Q in
  compute_metrics c
  = Ok (mkMetrics s acc
          (if decide (s = 0) then 0%Q else (1 - acc)%Q)
          p r
          (if Qeq_dec (p + r) 0 then 0%Q else (2 * p * r / (p + r))%Q)
          (if decide (TP c + FN c = 0) then 0%Q
           else (inject_Z (FN c) / inject_Z (TP c + FN c))%Q)
          (if decide (TP c + FP c = 0) then 0%Q
           else (inject_Z (FP c) / inject_Z (TP c + FP c))%Q)).
Proof.
  intros s acc p r. unfold compute_metrics.
  rewrite !guarded_int_truediv. simpl.
  rewrite guarded_truediv. simpl.
  fold s. fold acc. fold p. fold r.
  do 2 f_equal. f_equal.
  unfold truthy_int. destruct (Z.eqb_spec s 0); case_decide; done.
Qed.

Lemma deepseek_compute_metrics_eq (c : DeepSeek.Counts) :
  let p := if decide (DeepSeek.TP c + DeepSeek.FP c = 0) then 0%Q
           else (inject_Z (DeepSeek.TP c)
                 / inject_Z (DeepSeek.TP c + DeepSeek.FP c))%Q in
  let r := if decide (DeepSeek.TP c + DeepSeek.FN c = 0) then 0%Q
           else (inject_Z (DeepSeek.TP c)
                 / inject_Z (DeepSeek.TP c + DeepSeek.FN c))%Q in
  DeepSeek.compute_metrics c
  = Ok (DeepSeek.mkMetrics p r
          (if Qeq_dec (p + r) 0 then 0%Q else (2 * p * r / (p + r))%Q)
          (DeepSeek.TP c) (DeepSeek.FN c) (DeepSeek.FP c)).
Proof.
  intros p r. unfold DeepSeek.compute_metrics.
  rewrite !guarded_int_truediv. simpl.
  rewrite guarded_truediv. simpl. done.
Qed.

(** C3.  On every counts dictionary (in particular on one with
    non-negative entries) [compute_metrics] returns, without raising, the
    record with support [TP+FN+FP+TN], accuracy [(TP+TN)/support], error
    rate [1 - accuracy], precision [TP/(TP+FP)], recall [TP/(TP+FN)],
    F1 [2*precision*recall/(precision+recall)], false negative rate
    [FN/(TP+FN)] and false positive rate [FP/(TP+FP)], where a metric whose
    denominator is 0 is exactly 0.  The DeepSeek script's [compute_metrics]
    returns the same precision, recall and F1 next to the counts. *)
Theorem compute_metrics_formulas (c : Counts) :
  ∃ m, compute_metrics c = Ok m ∧
    let s := TP c + FN c + FP c + TN c in
    support m = s ∧
    accuracy m
      = (if decide ((s = 0)%Z) then 0 else inject_Z (TP c + TN c) / inject_Z s)%Q ∧
    error_rate m = (if decide ((s = 0)%Z) then 0 else 1 - accuracy m)%Q ∧
    precision m
      = (if decide ((TP c + FP c = 0)%Z) then 0
         else inject_Z (TP c) / inject_Z (TP c + FP c))%Q ∧
    recall m
      = (if decide ((TP c + FN c = 0)%Z) then 0
         else inject_Z (TP c) / inject_Z (TP c + FN c))%Q ∧
    f1_score m
      = (if Qeq_dec (precision m + recall m) 0 then 0
         else 2 * precision m * recall m / (precision m + recall m))%Q ∧
    false_negative_rate m
      = (if decide ((TP c + FN c = 0)%Z) then 0
         else inject_Z (FN c) / inject_Z (TP c + FN c))%Q ∧
    false_positive_rate m
      = (if decide ((TP c + FP c = 0)%Z) then 0
         else inject_Z (FP c) / inject_Z (TP c + FP c))%Q ∧
    ∃ m', DeepSeek.compute_metrics
            (DeepSeek.mkCounts (TP c) (FN c) (FP c)) = Ok m' ∧
      DeepSeek.precision m' = precision m ∧
      DeepSeek.recall m' = recall m ∧
      DeepSeek.f1_score m' = f1_score m ∧
      (DeepSeek.m_TP m', DeepSeek.m_FN m', DeepSeek.m_FP m')
        = (TP c, FN c, FP c).
Proof.
  eexists. split; [apply compute_metrics_eq |]. simpl.
  repeat (split; [reflexivity |]).
  eexists. split; [apply deepseek_compute_metrics_eq |]. simpl.
  repeat split.
Qed.

(** C9.  On counts with non-negative entries every derived metric of
    [compute_metrics] (accuracy, error rate, precision, recall, F1, false
    negative rate, false positive rate) lies in the closed interval
    [0, 1]; so do the precision, recall and F1 of the DeepSeek script. *)
Theorem compute_metrics_unit_interval (c : Counts) :
  0 ≤ TP c → 0 ≤ FN c → 0 ≤ FP c → 0 ≤ TN c →
  let unit_interval (x : Q) := (0 <= x)%Q ∧ (x <= 1)%Q in
  (∃ m, compute_metrics c = Ok m ∧
     unit_interval (accuracy m) ∧ unit_interval (error_rate m) ∧
     unit_interval (precision m) ∧ unit_interval (recall m) ∧
     unit_interval (f1_score m) ∧
     unit_interval (false_negative_rate m) ∧
     unit_interval (false_positive_rate m)) ∧
  (∃ m', DeepSeek.compute_metrics
           (DeepSeek.mkCounts (TP c) (FN c) (FP c)) = Ok m' ∧
     unit_interval (DeepSeek.precision m') ∧
     unit_interval (DeepSeek.recall m') ∧
     unit_interval (DeepSeek.f1_score m')).
Proof.
  intros Htp Hfn Hfp Htn unit_interval.
  pose proof (guarded_ratio_bounds (TP c + TN c) (TP c + FN c + FP c + TN c)
                ltac:(lia) ltac:(lia)) as Hacc.
  pose proof (guarded_ratio_bounds (TP c) (TP c + FP c)
                ltac:(lia) ltac:(lia)) as Hp.
  pose proof (guarded_ratio_bounds (TP c) (TP c + FN c)
                ltac:(lia) ltac:(lia)) as Hr.
  pose proof (guarded_ratio_bounds (FN c) (TP c + FN c)
                ltac:(lia) ltac:(lia)) as Hfnr.
  pose proof (guarded_ratio_bounds (FP c) (TP c + FP c)
                ltac:(lia) ltac:(lia)) as Hfpr.
  simpl in Hacc, Hp, Hr, Hfnr, Hfpr.
  pose proof (f1_bounds _ _ (proj1 Hp) (proj2 Hp) (proj1 Hr) (proj2 Hr))
    as Hf1.
  simpl in Hf1.
  split.
  - eexists. split; [apply compute_metrics_eq |]. simpl.
    split; [exact Hacc |]. split.
    { unfold unit_interval.
      destruct (decide (TP c + FN c + FP c + TN c = 0)).
      - split; [apply Qle_refl | done].
      - destruct Hacc as [Hacc0 Hacc1]. split; lra. }
    split; [exact Hp |]. split; [exact Hr |]. split; [exact Hf1 |].
    split; [exact Hfnr | exact Hfpr].
  - eexists. split; [apply deepseek_compute_metrics_eq |]. simpl.
    split; [exact Hp |]. split; [exact Hr | exact Hf1].
Qed.

Lemma compute_metrics_unit_interval_witness :
  let unit_interval (x : Q) := (0 <= x)%Q ∧ (x <= 1)%Q in
  (∃ m, compute_metrics (mkCounts 2 1 1 0) = Ok m ∧
     unit_interval (accuracy m) ∧ unit_interval (error_rate m) ∧
     unit_interval (precision m) ∧ unit_interval (recall m) ∧
     unit_interval (f1_score m) ∧
     unit_interval (false_negative_rate m) ∧
     unit_interval (false_positive_rate m)) ∧
  (∃ m', DeepSeek.compute_metrics (DeepSeek.mkCounts 2 1 1) = Ok m' ∧
     unit_interval (DeepSeek.precision m') ∧
     unit_interval (DeepSeek.recall m') ∧
     unit_interval (DeepSeek.f1_score m')).
Proof.
  apply (compute_metrics_unit_interval (mkCounts 2 1 1 0)); simpl; lia.
Defined.

(** ** The comparator *)

Section Comparator.
Context {A : Type} {A_eq_dec : EqDecision A} {A_countable : Countable A}.

(** A set splits into its part inside and its part outside another. *)
Lemma size_inter_difference (X Y : gset A) :
  (size (X ∩ Y) + size (X ∖ Y))%nat = size X.
Proof.
  rewrite <- size_union.
  - f_equal. apply set_eq. intros x.
    rewrite elem_of_union, elem_of_intersection, elem_of_difference.
    destruct (decide (x ∈ Y)); tauto.
  - apply elem_of_disjoint. intros x.
    rewrite elem_of_intersection, elem_of_difference. tauto.
Qed.

Lemma size_inter_difference_r (X Y : gset A) :
  (size (Y ∩ X) + size (X ∖ Y))%nat = size X.
Proof.
  rewrite (comm_L (∩) Y X). apply size_inter_difference.
Qed.
End Comparator.

(** C5.  The item-level counts of both scripts, [tp = |gold ∩ candidate|],
    [fn = |gold − candidate|] and [fp = |candidate − gold|], satisfy
    [tp + fn = |gold|] and [tp + fp = |candidate|]. *)
Theorem item_counts_partition
    (generated_results sample_results : gset Row)
    (correct_answers deepseek_answer : gset string) :
  (let '(tp, fn, fp) := item_counts generated_results sample_results in
   tp + fn = Z.of_nat (size sample_results) ∧
   tp + fp = Z.of_nat (size generated_results)) ∧
  (let '(tp, fn, fp) := DeepSeek.item_counts correct_answers deepseek_answer in
   tp + fn = Z.of_nat (size correct_answers) ∧
   tp + fp = Z.of_nat (size deepseek_answer)).
Proof.
  unfold item_counts, DeepSeek.item_counts.
  pose proof (size_inter_difference_r sample_results generated_results).
  pose proof (size_inter_difference generated_results sample_results).
  pose proof (size_inter_difference correct_answers deepseek_answer).
  pose proof (size_inter_difference_r deepseek_answer correct_answers).
  lia.
Qed.

(** Gold [{a, b, c}] against candidate [{a, b, d}]. *)
Example item_counts_abc_abd :
  DeepSeek.item_counts (list_to_set ["a"; "b"; "c"]%string)
                       (list_to_set ["a"; "b"; "d"]%string)
  = (2, 1, 1).
Proof. vm_compute. reflexivity. Qed.

(** ** The accumulator *)

Section Accumulator.

Lemma fold_comm (a b : Counts) : fold a b = fold b a.
Proof. unfold fold. f_equal; lia. Qed.

Lemma fold_assoc (a b c : Counts) : fold (fold a b) c = fold a (fold b c).
Proof. unfold fold. simpl. f_equal; lia. Qed.

Lemma fold_zero_l (a : Counts) : fold zero_counts a = a.
Proof. destruct a. unfold fold. simpl. f_equal; lia. Qed.

Lemma deepseek_fold_swap (c : DeepSeek.Counts) (a b : Z * Z * Z) :
  DeepSeek.fold (DeepSeek.fold c a) b = DeepSeek.fold (DeepSeek.fold c b) a.
Proof.
  destruct a as [[a1 a2] a3], b as [[b1 b2] b3].
  unfold DeepSeek.fold. simpl. f_equal; lia.
Qed.

(** The overall counts of the DeepSeek pass do not depend on the
    per-type counts. *)
Lemma deepseek_overall_foldl (results : list DeepSeek.DataPoint)
    (overall_counts : DeepSeek.Counts)
    (type_counts : gmap string DeepSeek.Counts) :
  (foldl DeepSeek.step (overall_counts, type_counts) results).1
  = foldl (fun c data_point =>
             let '(correct_answers, deepseek_answer) :=
               DeepSeek.normalize data_point in
             DeepSeek.fold c
               (DeepSeek.item_counts correct_answers deepseek_answer))
          overall_counts results.
Proof.
  revert overall_counts type_counts.
  induction results as [| data_point rest IH]; intros o t; [done |].
  cbn [foldl].
  destruct (DeepSeek.step (o, t) data_point) as [o' t'] eqn:Hstep.
  rewrite IH. f_equal.
  unfold DeepSeek.step in Hstep.
  destruct (DeepSeek.normalize data_point) as [correct deepseek].
  by inversion Hstep.
Qed.

Lemma foldl_swap_permutation {B C : Type} (f : B → C → B) :
  (∀ b x y, f (f b x) y = f (f b y) x) →
  ∀ xs ys, xs ≡ₚ ys → ∀ b, foldl f b xs = foldl f b ys.
Proof.
  intros Hf xs ys Hperm.
  induction Hperm as [| x xs ys _ IH | x y xs | xs ys zs _ IH1 _ IH2];
    intros b; simpl.
  - done.
  - apply IH.
  - by rewrite Hf.
  - by rewrite IH1.
Qed.

End Accumulator.

(** C6.  Folding counts into a running total is field-wise addition, so
    it is commutative and associative: folding [a] then [b] into the zero
    counts gives the totals of folding [b] then [a], and the grouping of
    folds does not matter.  The updates of the pass are such folds, and the
    overall counts of the DeepSeek pass do not depend on the order of the
    data points. *)
Theorem fold_commutative_associative (a b c : Counts) :
  fold (fold zero_counts a) b = fold (fold zero_counts b) a ∧
  fold (fold c a) b = fold (fold c b) a ∧
  fold a b = fold b a ∧
  fold (fold a b) c = fold a (fold b c) ∧
  (∀ tp_items fn_items fp_items,
     add_items c tp_items fn_items fp_items
     = fold c (mkCounts tp_items fn_items fp_items 0)) ∧
  incr_TP c = fold c (mkCounts 1 0 0 0) ∧
  incr_FN c = fold c (mkCounts 0 1 0 0) ∧
  (∀ (d : DeepSeek.Counts) (x y : Z * Z * Z),
     DeepSeek.fold (DeepSeek.fold d x) y = DeepSeek.fold (DeepSeek.fold d y) x) ∧
  (∀ xs ys : list DeepSeek.DataPoint,
     xs ≡ₚ ys →
     (DeepSeek.calculate_item_metrics xs).1
     = (DeepSeek.calculate_item_metrics ys).1).
Proof.
  split_and!.
  - by rewrite !fold_assoc, (fold_comm a b).
  - by rewrite !fold_assoc, (fold_comm a b).
  - apply fold_comm.
  - apply fold_assoc.
  - intros. unfold add_items, fold. simpl. f_equal; lia.
  - unfold incr_TP, fold. simpl. f_equal; lia.
  - unfold incr_FN, fold. simpl. f_equal; lia.
  - apply deepseek_fold_swap.
  - intros xs ys Hperm. unfold DeepSeek.calculate_item_metrics.
    rewrite !deepseek_overall_foldl.
    apply foldl_swap_permutation; [| done].
    intros d x y.
    destruct (DeepSeek.normalize x), (DeepSeek.normalize y).
    apply deepseek_fold_swap.
Qed.

(** ** The yes/no normalization of the DeepSeek script *)

(** C8.  The code misses the claim on a gold answer that is a boolean:
    the boolean [True] is not a list, line 28 prints that the data point
    is skipped, yet it is scored, with the gold side replaced by the empty
    set and then normalized to [{"no"}]; against the candidate [False] the
    counts are tp=1, fn=0, fp=0 where the claim has tp=0, fn=1, fp=1.  The
    gold list [["YES"]] against the same candidate gives the claimed
    counts. *)
Theorem bool_gold_scored_as_match :
  DeepSeek.normalize Scenario.bool_case
  = ({["no"%string]}, {["no"%string]}) ∧
  (let '(correct_answers, deepseek_answer) :=
     DeepSeek.normalize Scenario.bool_case in
   DeepSeek.item_counts correct_answers deepseek_answer = (1, 0, 0)) ∧
  DeepSeek.normalize Scenario.yes_case
  = ({["yes"%string]}, {["no"%string]}) ∧
  (let '(correct_answers, deepseek_answer) :=
     DeepSeek.normalize Scenario.yes_case in
   DeepSeek.item_counts correct_answers deepseek_answer = (0, 1, 1)).
Proof. split_and!; vm_compute; reflexivity. Qed.

Lemma yes_no_item_counts (a b : bool) :
  DeepSeek.item_counts (DeepSeek.yes_no a) (DeepSeek.yes_no b)
  = if bool_decide (a = b) then (1, 0, 0) else (0, 1, 1).
Proof. destruct a, b; vm_compute; reflexivity. Qed.

(** X23.  A case whose candidate answer is a boolean and whose gold
    answer is a list has both sides normalized to a singleton set: the
    candidate to [{"yes"}] or [{"no"}] by its value, the gold side to
    [{"yes"}] when the list contains ["YES"] and to [{"no"}] otherwise.
    The item counts are then tp=1, fn=0, fp=0 when the two agree and
    tp=0, fn=1, fp=1 when they differ. *)
Theorem yes_no_list_gold_normalization
    (data_point : DeepSeek.DataPoint) (b : bool) (items : list string) :
  DeepSeek.deepseek_answer data_point = Some (DeepSeek.ABool b) →
  DeepSeek.answer data_point = Some (DeepSeek.AList items) →
  let gold_yes := bool_decide ("YES"%string ∈ items) in
  let '(correct_answers, deepseek_answer) := DeepSeek.normalize data_point in
  deepseek_answer = {[ if b then "yes"%string else "no"%string ]} ∧
  correct_answers = {[ if gold_yes then "yes"%string else "no"%string ]} ∧
  DeepSeek.item_counts correct_answers deepseek_answer
  = if bool_decide (gold_yes = b) then (1, 0, 0) else (0, 1, 1).
Proof.
  intros Hcand Hgold gold_yes. unfold DeepSeek.normalize. rewrite Hcand.
  assert (Hyes : bool_decide ("YES"%string ∈ DeepSeek.gold_set data_point)
                 = gold_yes).
  { unfold DeepSeek.gold_set, gold_yes. rewrite Hgold.
    apply bool_decide_ext. apply elem_of_list_to_set. }
  rewrite Hyes. split_and!.
  - by destruct b.
  - by destruct gold_yes.
  - apply yes_no_item_counts.
Qed.

Lemma yes_no_list_gold_normalization_witness :
  let '(correct_answers, deepseek_answer) :=
    DeepSeek.normalize Scenario.yes_case in
  deepseek_answer = {[ "no"%string ]} ∧
  correct_answers = {[ "yes"%string ]} ∧
  DeepSeek.item_counts correct_answers deepseek_answer = (0, 1, 1).
Proof.
  exact (yes_no_list_gold_normalization Scenario.yes_case false
           ["YES"%string] eq_refl eq_refl).
Defined.

(** ** The count accumulation pass *)

Section PassFacts.
Context {G : Type}.
Variable safe_query : G → string → G * result (list Row).

(** Truthy strings are present and non-empty; the others are absent or
    empty. *)
Lemma truthy_Some (o : option string) :
  truthy o = true → ∃ s, o = Some s ∧ s ≠ ""%string.
Proof.
  destruct o as [s |]; simpl; [| done].
  intros Hs. exists s. split; [done |].
  intros ->. done.
Qed.

Lemma truthy_false (o : option string) :
  truthy o = false ↔ o = None ∨ o = Some ""%string.
Proof.
  destruct o as [s |]; simpl.
  - destruct (String.eqb_spec s "") as [-> | Hne]; simpl.
    + split; auto.
    + split; [done |]. intros [H | H]; congruence.
  - split; auto.
Qed.

(** The skipped case: only the bucket is created. *)
Lemma step_skip (g : G) (L : Locals) (data_point : DataPoint) :
  truthy (response_of data_point) && truthy (sparql data_point) = false →
  step safe_query g L data_point
  = Ok (g, ensure_bucket (qtype_of data_point) L).
Proof.
  intros Hskip. unfold step. rewrite Hskip.
  by destruct (response_of data_point), (sparql data_point).
Qed.

(** The evaluated case: the [try] statement, then the item-level code. *)
Lemma step_eval (g : G) (L : Locals) (data_point : DataPoint) :
  truthy (response_of data_point) && truthy (sparql data_point) = true →
  ∃ r q, response_of data_point = Some r ∧ sparql data_point = Some q ∧
    step safe_query g L data_point
    = (let '(g', L') :=
         query_eval safe_query (qtype_of data_point) r q g
           (ensure_bucket (qtype_of data_point) L) in
       L'' ← item_eval (qtype_of data_point) L'; Ok (g', L'')).
Proof.
  intros Heval. unfold step. rewrite Heval.
  apply andb_true_iff in Heval as [Hr Hq].
  apply truthy_Some in Hr as (r & -> & _).
  apply truthy_Some in Hq as (q & -> & _).
  by exists r, q.
Qed.

(** The [try] statement changes the counts by one query-level TP or FN. *)
Lemma query_eval_shape (qtype r q : string) (g : G) (L : Locals) :
  ∃ f gen sam g',
    (f = incr_TP ∨ f = incr_FN) ∧
    query_eval safe_query qtype r q g L
    = (g', mkLocals (f (overall_query L)) (overall_item L)
             (alter (on_query_level f) qtype (type_counts L)) gen sam).
Proof.
  unfold query_eval.
  destruct (safe_query g r) as [g1 [rows1 | e1]].
  - destruct (safe_query g1 q) as [g2 [rows2 | e2]].
    + case_decide; do 4 eexists; (split; [| reflexivity]); auto.
    + do 4 eexists; (split; [| reflexivity]); auto.
  - do 4 eexists; (split; [| reflexivity]); auto.
Qed.

Lemma item_eval_shape (qtype : string) (L L' : Locals) :
  item_eval qtype L = Ok L' →
  ∃ tp fn fp,
    L' = mkLocals (overall_query L) (add_items (overall_item L) tp fn fp)
           (alter (on_item_level (fun c => add_items c tp fn fp)) qtype
                  (type_counts L))
           (generated_results L) (sample_results L).
Proof.
  unfold item_eval.
  destruct (generated_results L) as [gen |]; [| done].
  destruct (sample_results L) as [sam |]; [| done].
  simpl. intros [= <-]. by do 3 eexists.
Qed.

(** What a step that returns does to the counts. *)
Lemma step_shape (g g' : G) (L L' : Locals) (data_point : DataPoint) :
  step safe_query g L data_point = Ok (g', L') →
  let qtype := qtype_of data_point in
  let L0 := ensure_bucket qtype L in
  (truthy (response_of data_point) && truthy (sparql data_point) = false ∧
   g' = g ∧ L' = L0) ∨
  (truthy (response_of data_point) && truthy (sparql data_point) = true ∧
   ∃ f tp fn fp,
     (f = incr_TP ∨ f = incr_FN) ∧
     overall_query L' = f (overall_query L0) ∧
     overall_item L' = add_items (overall_item L0) tp fn fp ∧
     type_counts L'
     = alter (on_item_level (fun c => add_items c tp fn fp)) qtype
         (alter (on_query_level f) qtype (type_counts L0))).
Proof.
  intros Hstep qtype L0.
  destruct (truthy (response_of data_point) && truthy (sparql data_point))
    eqn:Hguard.
  - right. split; [done |].
    destruct (step_eval g L data_point Hguard) as (r & q & _ & _ & Heq).
    rewrite Heq in Hstep. clear Heq.
    destruct (query_eval_shape (qtype_of data_point) r q g
                (ensure_bucket (qtype_of data_point) L))
      as (f & gen & sam & g1 & Hf & Heq).
    rewrite Heq in Hstep. clear Heq.
    destruct (item_eval _ _) as [L2 |] eqn:Hitem; [| done].
    simpl in Hstep. injection Hstep as <- <-.
    apply item_eval_shape in Hitem as (tp & fn & fp & ->).
    exists f, tp, fn, fp. by simpl.
  - left. rewrite (step_skip g L data_point Hguard) in Hstep.
    by injection Hstep as <- <-.
Qed.

Lemma ensure_bucket_overall (qtype : string) (L : Locals) :
  overall_query (ensure_bucket qtype L) = overall_query L ∧
  overall_item (ensure_bucket qtype L) = overall_item L.
Proof. unfold ensure_bucket. by destruct (type_counts L !! qtype). Qed.

Lemma ensure_bucket_lookup (qtype q : string) (L : Locals) :
  type_counts (ensure_bucket qtype L) !! q
  = match type_counts L !! q with
    | Some lc => Some lc
    | None => if decide (qtype = q) then Some zero_level else None
    end.
Proof.
  unfold ensure_bucket.
  destruct (type_counts L !! qtype) as [lc |] eqn:Hq; simpl.
  - destruct (type_counts L !! q) eqn:Hq'; [done |].
    case_decide; [congruence | done].
  - rewrite lookup_insert. case_decide.
    + subst. by rewrite Hq.
    + by destruct (type_counts L !! q).
Qed.

(** An induction principle for the loop: a property of the locals that
    every returning step of a data point of the list preserves holds
    after the loop. *)
Lemma loop_invariant (P : Locals → Prop) (results : list DataPoint) :
  (∀ data_point g g' L L',
     data_point ∈ results → P L →
     step safe_query g L data_point = Ok (g', L') → P L') →
  ∀ g g' L L',
    P L → loop safe_query g L results = Ok (g', L') → P L'.
Proof.
  induction results as [| data_point rest IH]; intros Hstep g g' L L' HP.
  - simpl. by intros [= <- <-].
  - simpl. destruct (step safe_query g L data_point) as [[g1 L1] |] eqn:H1;
      [| done].
    simpl. apply IH.
    + intros dp ? ? ? ? Hin. apply Hstep. apply elem_of_cons. by right.
    + eapply Hstep; [apply elem_of_cons; by left | done | done].
Qed.

End PassFacts.

Section QueryLevel.
Context {G : Type}.
Variable safe_query : G → string → G * result (list Row).

Lemma bump_keeps_fp_tn (f : Counts → Counts) (c : Counts) :
  f = incr_TP ∨ f = incr_FN → FP (f c) = FP c ∧ TN (f c) = TN c.
Proof. by intros [-> | ->]. Qed.

(** A returning step keeps the query-level FP and TN counts at zero. *)
Lemma step_query_fp_tn (g g' : G) (L L' : Locals) (data_point : DataPoint) :
  step safe_query g L data_point = Ok (g', L') →
  (FP (overall_query L) = 0 ∧ TN (overall_query L) = 0 ∧
   ∀ qtype lc, type_counts L !! qtype = Some lc →
     FP (query_level lc) = 0 ∧ TN (query_level lc) = 0) →
  FP (overall_query L') = 0 ∧ TN (overall_query L') = 0 ∧
  ∀ qtype lc, type_counts L' !! qtype = Some lc →
    FP (query_level lc) = 0 ∧ TN (query_level lc) = 0.
Proof.
  intros Hstep (Hfp & Htn & Htc).
  assert (Hbucket : ∀ qtype lc,
            type_counts (ensure_bucket (qtype_of data_point) L) !! qtype
            = Some lc →
            FP (query_level lc) = 0 ∧ TN (query_level lc) = 0).
  { intros qtype lc. rewrite ensure_bucket_lookup.
    destruct (type_counts L !! qtype) as [lc0 |] eqn:Hq.
    - intros [= <-]. by apply (Htc qtype).
    - case_decide; [| done]. by intros [= <-]. }
  destruct (ensure_bucket_overall (qtype_of data_point) L) as [Hoq Hoi].
  apply step_shape in Hstep as
    [(_ & _ & ->) | (_ & f & tp & fn & fp & Hf & Hq & _ & Ht)].
  - rewrite Hoq. done.
  - rewrite Hq, Hoq.
    destruct (bump_keeps_fp_tn f (overall_query L) Hf) as [-> ->].
    split; [done |]. split; [done |].
    intros qtype lc. rewrite Ht.
    rewrite lookup_alter_Some.
    intros [(<- & lc1 & Hlc1 & ->) | (_ & Hlc)]; simpl.
    + apply lookup_alter_Some in Hlc1
        as [(_ & lc2 & Hlc2 & ->) | (_ & Hlc2)]; simpl.
      * destruct (bump_keeps_fp_tn f (query_level lc2) Hf) as [-> ->].
        exact (Hbucket _ _ Hlc2).
      * exact (Hbucket _ _ Hlc2).
    + apply lookup_alter_Some in Hlc
        as [(_ & lc2 & Hlc2 & ->) | (_ & Hlc2)]; simpl.
      * destruct (bump_keeps_fp_tn f (query_level lc2) Hf) as [-> ->].
        exact (Hbucket _ _ Hlc2).
      * exact (Hbucket _ _ Hlc2).
Qed.

End QueryLevel.

(** C4.  After a pass over any data set that returns its counts, the
    query-level FP and TN counts are 0 in the overall bucket and in every
    question type bucket: a query-level outcome is a TP or an FN. *)
Theorem query_level_fp_tn_zero {G : Type}
    (safe_query : G → string → G * result (list Row))
    (g g' : G) (results : list DataPoint)
    (overall_query overall_item : Counts)
    (type_counts : gmap string LevelCounts) :
  calculate_counts safe_query g results
  = Ok (g', (overall_query, overall_item, type_counts)) →
  FP overall_query = 0 ∧ TN overall_query = 0 ∧
  ∀ qtype lc, type_counts !! qtype = Some lc →
    FP (query_level lc) = 0 ∧ TN (query_level lc) = 0.
Proof.
  unfold calculate_counts.
  destruct (loop safe_query g init_locals results) as [[g1 L] |] eqn:Hloop;
    [| done].
  simpl. intros [= <- <- <- <-].
  revert Hloop.
  apply (loop_invariant safe_query
           (fun L => FP (RunMetrics.overall_query L) = 0 ∧
                     TN (RunMetrics.overall_query L) = 0 ∧
                     ∀ qtype lc, RunMetrics.type_counts L !! qtype = Some lc →
                       FP (query_level lc) = 0 ∧ TN (query_level lc) = 0)
           results).
  - intros data_point g0 g2 L0 L2 _ HP Hstep.
    by apply (step_query_fp_tn safe_query g0 g2 L0 L2 data_point).
  - simpl. split; [done |]. split; [done |].
    intros qtype lc. by rewrite lookup_empty.
Qed.

Lemma query_level_fp_tn_zero_witness :
  ∃ overall_query overall_item type_counts,
    calculate_counts Scenario.safe_query tt
      [Scenario.matching_case; Scenario.timeout_case; Scenario.missing_case]
    = Ok (tt, (overall_query, overall_item, type_counts)) ∧
    FP overall_query = 0 ∧ TN overall_query = 0 ∧
    ∀ qtype lc, type_counts !! qtype = Some lc →
      FP (query_level lc) = 0 ∧ TN (query_level lc) = 0.
Proof.
  assert (H : ∃ r, calculate_counts Scenario.safe_query tt
      [Scenario.matching_case; Scenario.timeout_case; Scenario.missing_case]
      = Ok (tt, r)).
  { eexists. vm_compute. reflexivity. }
  destruct H as [[[oq oi] tc] H].
  exists oq, oi, tc. split; [exact H |].
  exact (query_level_fp_tn_zero Scenario.safe_query tt tt _ oq oi tc H).
Defined.

(** ** Cases without a query string *)

(** C7, as stated, fails: a case whose candidate query is absent is not
    counted as a query-level false negative; the pass leaves every count
    at zero. *)
Lemma missing_case_counterexample :
  ∃ overall_query overall_item type_counts,
    calculate_counts Scenario.safe_query tt [Scenario.missing_case]
    = Ok (tt, (overall_query, overall_item, type_counts)) ∧
    FN overall_query = 0 ∧ FN overall_query ≠ 1 ∧
    type_counts !! "director"%string = Some zero_level.
Proof.
  do 3 eexists. split; [vm_compute; reflexivity |].
  split; [reflexivity |]. split; [discriminate |].
  vm_compute. reflexivity.
Qed.

(** C7, amended.  A case whose candidate query string or gold query
    string is absent or empty is skipped: no query is run, the
    query-level and item-level counts of the overall bucket and of every
    existing bucket stay as they are, and the only effect is that the
    bucket of the case's question type is created with zero counts when
    it does not exist yet. *)
Theorem missing_query_case_skipped {G : Type}
    (safe_query : G → string → G * result (list Row))
    (g : G) (L : Locals) (data_point : DataPoint) :
  response_of data_point = None ∨ response_of data_point = Some ""%string ∨
  sparql data_point = None ∨ sparql data_point = Some ""%string →
  ∃ L', step safe_query g L data_point = Ok (g, L') ∧
    overall_query L' = overall_query L ∧
    overall_item L' = overall_item L ∧
    generated_results L' = generated_results L ∧
    sample_results L' = sample_results L ∧
    (∀ qtype lc, type_counts L !! qtype = Some lc →
       type_counts L' !! qtype = Some lc) ∧
    (∀ qtype, type_counts L !! qtype = None →
       type_counts L' !! qtype
       = if decide (qtype_of data_point = qtype) then Some zero_level
         else None).
Proof.
  intros Hmissing.
  assert (Hskip : truthy (response_of data_point)
                  && truthy (sparql data_point) = false).
  { apply andb_false_iff.
    destruct Hmissing as [H | [H | [H | H]]].
    - left. apply truthy_false. by left.
    - left. apply truthy_false. by right.
    - right. apply truthy_false. by left.
    - right. apply truthy_false. by right. }
  exists (ensure_bucket (qtype_of data_point) L).
  split; [by apply step_skip |].
  destruct (ensure_bucket_overall (qtype_of data_point) L) as [-> ->].
  split; [done |]. split; [done |].
  split; [unfold ensure_bucket; by destruct (type_counts L !! _) |].
  split; [unfold ensure_bucket; by destruct (type_counts L !! _) |].
  split.
  - intros qtype lc Hlc. by rewrite ensure_bucket_lookup, Hlc.
  - intros qtype Hnone. by rewrite ensure_bucket_lookup, Hnone.
Qed.

Lemma missing_query_case_skipped_witness :
  ∃ L', step Scenario.safe_query tt init_locals Scenario.missing_case
        = Ok (tt, L') ∧
    overall_query L' = overall_query init_locals ∧
    overall_item L' = overall_item init_locals ∧
    generated_results L' = generated_results init_locals ∧
    sample_results L' = sample_results init_locals ∧
    (∀ qtype lc, type_counts init_locals !! qtype = Some lc →
       type_counts L' !! qtype = Some lc) ∧
    (∀ qtype, type_counts init_locals !! qtype = None →
       type_counts L' !! qtype
       = if decide (qtype_of Scenario.missing_case = qtype)
         then Some zero_level else None).
Proof.
  apply (missing_query_case_skipped Scenario.safe_query tt init_locals
           Scenario.missing_case).
  left. reflexivity.
Defined.

(** ** Buckets of skipped question types *)

Section Buckets.
Context {G : Type}.
Variable safe_query : G → string → G * result (list Row).

Lemma step_bucket_present (g g' : G) (L L' : Locals) (data_point : DataPoint)
    (qtype : string) :
  step safe_query g L data_point = Ok (g', L') →
  qtype = qtype_of data_point ∨ is_Some (type_counts L !! qtype) →
  is_Some (type_counts L' !! qtype).
Proof.
  intros Hstep Hq.
  assert (H0 : is_Some
            (type_counts (ensure_bucket (qtype_of data_point) L) !! qtype)).
  { rewrite ensure_bucket_lookup.
    destruct (type_counts L !! qtype) as [lc |] eqn:Hlc; [by eexists |].
    destruct Hq as [-> | [lc Hsome]]; [| done].
    rewrite decide_True by done. by eexists. }
  apply step_shape in Hstep as
    [(_ & _ & ->) | (_ & f & tp & fn & fp & _ & _ & _ & ->)]; [done |].
  by rewrite !lookup_alter_is_Some.
Qed.

Lemma step_keeps_zero (g g' : G) (L L' : Locals) (data_point : DataPoint)
    (qtype : string) :
  step safe_query g L data_point = Ok (g', L') →
  truthy (response_of data_point) && truthy (sparql data_point) = false
  ∨ qtype_of data_point ≠ qtype →
  (∀ lc, type_counts L !! qtype = Some lc → lc = zero_level) →
  ∀ lc, type_counts L' !! qtype = Some lc → lc = zero_level.
Proof.
  intros Hstep Hcase Hzero.
  assert (H0 : ∀ lc,
            type_counts (ensure_bucket (qtype_of data_point) L) !! qtype
            = Some lc → lc = zero_level).
  { intros lc. rewrite ensure_bucket_lookup.
    destruct (type_counts L !! qtype) as [lc0 |] eqn:Hlc.
    - intros [= <-]. by apply Hzero.
    - case_decide; [| done]. by intros [= <-]. }
  apply step_shape in Hstep as
    [(_ & _ & ->) | (Hguard & f & tp & fn & fp & _ & _ & _ & ->)]; [done |].
  destruct Hcase as [Hskip | Hne]; [congruence |].
  intros lc. rewrite !lookup_alter_ne by done. apply H0.
Qed.

Lemma loop_bucket_present (results : list DataPoint) (data_point : DataPoint) :
  data_point ∈ results →
  ∀ g g' L L',
    loop safe_query g L results = Ok (g', L') →
    is_Some (type_counts L' !! qtype_of data_point).
Proof.
  induction results as [| d rest IH]; intros Hin g g' L L' Hloop.
  - by apply elem_of_nil in Hin.
  - simpl in Hloop.
    destruct (step safe_query g L d) as [[g1 L1] |] eqn:Hstep; [| done].
    simpl in Hloop.
    apply elem_of_cons in Hin as [-> | Hin].
    + revert Hloop.
      apply (loop_invariant safe_query
               (fun L => is_Some (type_counts L !! qtype_of d)) rest).
      * intros dp g0 g2 L0 L2 _ HP Hs.
        apply (step_bucket_present g0 g2 L0 L2 dp); auto.
      * apply (step_bucket_present g g1 L L1 d); auto.
    + by apply (IH Hin g1 g' L1 L').
Qed.

End Buckets.

Section Analysis.

Lemma average_item_counts_total (query_counts item_counts : Counts) :
  ∃ avg, average_item_counts query_counts item_counts = Ok avg.
Proof.
  unfold average_item_counts.
  destruct (truthy_int _) eqn:Hv; [| by eexists].
  unfold truthy_int in Hv. apply negb_true_iff in Hv.
  unfold int_truediv. rewrite Hv. simpl. by eexists.
Qed.

(** The analysis of a bucket never raises. *)
Lemma analyse_total (counts : LevelCounts) : ∃ a, analyse counts = Ok a.
Proof.
  unfold analyse. rewrite !compute_metrics_eq. simpl.
  destruct (average_item_counts_total (query_level counts)
              (item_level counts)) as [avg ->].
  simpl. by eexists.
Qed.

Lemma analyse_items_spec (items : list (string * LevelCounts)) :
  ∀ acc : gmap string Analysis,
    ∃ m, analyse_items items acc = Ok m ∧
      (∀ qtype, qtype ∉ items.*1 → m !! qtype = acc !! qtype) ∧
      (NoDup items.*1 →
       ∀ qtype counts a,
         (qtype, counts) ∈ items → analyse counts = Ok a →
         m !! qtype = Some a).
Proof.
  induction items as [| [q c] rest IH]; intros acc.
  - exists acc. split; [done |]. split; [done |].
    intros _ qtype counts a Hin. by apply elem_of_nil in Hin.
  - simpl. destruct (analyse_total c) as [a0 Ha0]. rewrite Ha0. simpl.
    destruct (IH (<[q := a0]> acc)) as (m & Hm & Hout & Hin).
    exists m. split; [done |]. split.
    + intros qtype Hnot. apply not_elem_of_cons in Hnot as [Hne Hnot].
      rewrite (Hout qtype Hnot). by rewrite lookup_insert_ne.
    + intros Hnodup qtype counts a Hmem Ha.
      apply NoDup_cons in Hnodup as [Hq Hnodup].
      apply elem_of_cons in Hmem as [[= -> ->] | Hmem].
      * rewrite (Hout q Hq), lookup_insert_eq. congruence.
      * by apply (Hin Hnodup qtype counts a).
Qed.

(** The per type analysis never raises and has, for every bucket, the
    analysis of that bucket. *)
Lemma per_type_analysis_lookup (type_counts : gmap string LevelCounts) :
  ∃ m, per_type_analysis type_counts = Ok m ∧
    ∀ qtype counts a,
      type_counts !! qtype = Some counts → analyse counts = Ok a →
      m !! qtype = Some a.
Proof.
  unfold per_type_analysis.
  destruct (analyse_items_spec (map_to_list type_counts) ∅)
    as (m & Hm & _ & Hin).
  exists m. split; [done |].
  intros qtype counts a Hlookup Ha.
  apply (Hin (NoDup_fst_map_to_list type_counts) qtype counts a); [| done].
  by apply elem_of_map_to_list.
Qed.

End Analysis.

(** C10.  The bucket of a question type is created when a case of that
    type is met, before the query strings are checked: in the counts that
    a pass returns, a question type all of whose cases lack a candidate
    or gold query string has a bucket with all-zero query-level and
    item-level counts, and the per type analysis of [main] reports it with
    zero counts and every metric and average equal to 0. *)
Theorem skipped_question_type_bucket {G : Type}
    (safe_query : G → string → G * result (list Row))
    (g g' : G) (results : list DataPoint) (data_point : DataPoint)
    (overall_query overall_item : Counts)
    (type_counts : gmap string LevelCounts) :
  data_point ∈ results →
  (∀ d, d ∈ results → qtype_of d = qtype_of data_point →
     response_of d = None ∨ response_of d = Some ""%string ∨
     sparql d = None ∨ sparql d = Some ""%string) →
  calculate_counts safe_query g results
  = Ok (g', (overall_query, overall_item, type_counts)) →
  type_counts !! qtype_of data_point = Some zero_level ∧
  ∃ analysis, per_type_analysis type_counts = Ok analysis ∧
    analysis !! qtype_of data_point
    = Some (mkAnalysis zero_counts zero_metrics zero_counts zero_metrics
              (mkAvgCounts 0 0 0 0)).
Proof.
  intros Hin Hskipped. unfold calculate_counts.
  destruct (loop safe_query g init_locals results) as [[g1 L] |] eqn:Hloop;
    [| done].
  simpl. intros [= <- <- <- <-].
  assert (Hzero : ∀ lc, RunMetrics.type_counts L !! qtype_of data_point
                        = Some lc → lc = zero_level).
  { revert Hloop.
    apply (loop_invariant safe_query
             (fun L => ∀ lc, RunMetrics.type_counts L !! qtype_of data_point
                             = Some lc → lc = zero_level) results).
    - intros d g0 g2 L0 L2 Hd HP Hstep.
      apply (step_keeps_zero safe_query g0 g2 L0 L2 d); [done | | done].
      destruct (decide (qtype_of d = qtype_of data_point)) as [Heq | Hne];
        [left | by right].
      apply andb_false_iff.
      destruct (Hskipped d Hd Heq) as [H | [H | [H | H]]].
      + left. apply truthy_false. by left.
      + left. apply truthy_false. by right.
      + right. apply truthy_false. by left.
      + right. apply truthy_false. by right.
    - intros lc. simpl. by rewrite lookup_empty. }
  destruct (loop_bucket_present safe_query results data_point Hin
              g g1 init_locals L Hloop) as [lc Hlc].
  rewrite (Hzero lc Hlc) in Hlc.
  split; [done |].
  destruct (per_type_analysis_lookup (RunMetrics.type_counts L))
    as (analysis & Hanalysis & Hlookup).
  exists analysis. split; [done |].
  by apply (Hlookup (qtype_of data_point) zero_level).
Qed.

Lemma skipped_question_type_bucket_witness :
  ∃ overall_query overall_item type_counts,
    calculate_counts Scenario.safe_query tt
      [Scenario.genre_case; Scenario.missing_case]
    = Ok (tt, (overall_query, overall_item, type_counts)) ∧
    type_counts !! "director"%string = Some zero_level ∧
    ∃ analysis, per_type_analysis type_counts = Ok analysis ∧
      analysis !! "director"%string
      = Some (mkAnalysis zero_counts zero_metrics zero_counts zero_metrics
                (mkAvgCounts 0 0 0 0)).
Proof.
  assert (H : ∃ r, calculate_counts Scenario.safe_query tt
                     [Scenario.genre_case; Scenario.missing_case]
                   = Ok (tt, r)).
  { eexists. vm_compute. reflexivity. }
  destruct H as [[[oq oi] tc] H].
  exists oq, oi, tc. split; [exact H |].
  apply (skipped_question_type_bucket Scenario.safe_query tt tt
           [Scenario.genre_case; Scenario.missing_case]
           Scenario.missing_case oq oi tc).
  - apply elem_of_cons. right. apply elem_of_cons. by left.
  - intros d Hd Hq.
    apply elem_of_cons in Hd as [-> | Hd]; [discriminate Hq |].
    apply elem_of_cons in Hd as [-> | Hd]; [by left |].
    by apply elem_of_nil in Hd.
  - exact H.
Defined.

(** ** Cases whose query execution raises *)

(** C2: on a data set whose first evaluated case has a candidate query
    that times out, the handler counts a query-level FN and the item-level
    code that follows the [try] statement then reads [generated_results],
    which no assignment has bound: the pass raises instead of returning
    counts. *)
Theorem timeout_first_case_raises :
  calculate_counts Scenario.safe_query tt [Scenario.timeout_case]
  = Raise (UnboundLocalError "generated_results") ∧
  calculate_counts Scenario.safe_query tt
    [Scenario.missing_case; Scenario.timeout_case; Scenario.matching_case]
  = Raise (UnboundLocalError "generated_results").
Proof. split; vm_compute; reflexivity. Qed.

(** C1: when the candidate query of a case times out after an earlier
    case was evaluated, the query-level FN counts grow by 1, and the
    item-level code adds the result sets left over from the earlier case
    once more: the item-level TP counts grow by 2 instead of 0. *)
Theorem timeout_case_adds_stale_items :
  ∃ type_counts1 type_counts2,
    calculate_counts Scenario.safe_query tt [Scenario.matching_case]
    = Ok (tt, (mkCounts 1 0 0 0, mkCounts 2 0 0 0, type_counts1)) ∧
    type_counts1 !! "director"%string
    = Some (mkLevelCounts (mkCounts 1 0 0 0) (mkCounts 2 0 0 0)) ∧
    calculate_counts Scenario.safe_query tt
      [Scenario.matching_case; Scenario.timeout_case]
    = Ok (tt, (mkCounts 1 1 0 0, mkCounts 4 0 0 0, type_counts2)) ∧
    type_counts2 !! "director"%string
    = Some (mkLevelCounts (mkCounts 1 1 0 0) (mkCounts 4 0 0 0)).
Proof.
  do 2 eexists.
  split; [vm_compute; reflexivity |].
  split; [vm_compute; reflexivity |].
  split; vm_compute; reflexivity.
Qed.

(** * Further properties *)

(** ** Identities between the metrics *)

Section MetricIdentities.

Lemma inject_Z_nonzero (b : Z) : b ≠ 0 → ¬ (inject_Z b == 0)%Q.
Proof. intros Hb Heq. apply Hb. unfold Qeq in Heq. simpl in Heq. lia. Qed.

Lemma ratio_self (a : Z) : a ≠ 0 → (inject_Z a / inject_Z a == 1)%Q.
Proof. intros Ha. field. by apply inject_Z_nonzero. Qed.

(** The F1 formula does not depend on the order of its arguments. *)
Lemma f1_formula_symmetric (p r : Q) :
  ((if Qeq_dec (r + p) 0 then 0 else 2 * r * p / (r + p))
   == if Qeq_dec (p + r) 0 then 0 else 2 * p * r / (p + r))%Q.
Proof.
  destruct (Qeq_dec (r + p) 0) as [H1 | H1];
    destruct (Qeq_dec (p + r) 0) as [H2 | H2].
  - reflexivity.
  - exfalso. apply H2. rewrite Qplus_comm. exact H1.
  - exfalso. apply H1. rewrite Qplus_comm. exact H2.
  - field. exact H2.
Qed.

End MetricIdentities.

(** X2.  The F1 score of both scripts treats false negatives and false
    positives alike: on non-negative counts, exchanging FN and FP
    exchanges precision and recall and leaves the F1 score as it is. *)
Theorem f1_score_symmetric (c : Counts) :
  0 ≤ TP c → 0 ≤ FN c → 0 ≤ FP c → 0 ≤ TN c →
  (∃ m m', compute_metrics c = Ok m ∧
     compute_metrics (mkCounts (TP c) (FP c) (FN c) (TN c)) = Ok m' ∧
     precision m' = recall m ∧ recall m' = precision m ∧
     (f1_score m' == f1_score m)%Q) ∧
  (∃ m m', DeepSeek.compute_metrics
             (DeepSeek.mkCounts (TP c) (FN c) (FP c)) = Ok m ∧
     DeepSeek.compute_metrics
       (DeepSeek.mkCounts (TP c) (FP c) (FN c)) = Ok m' ∧
     DeepSeek.precision m' = DeepSeek.recall m ∧
     DeepSeek.recall m' = DeepSeek.precision m ∧
     (DeepSeek.f1_score m' == DeepSeek.f1_score m)%Q).
Proof.
  intros _ _ _ _. split.
  - eexists _, _. split; [apply compute_metrics_eq |].
    split; [apply compute_metrics_eq |]. simpl.
    split; [done |]. split; [done |]. apply f1_formula_symmetric.
  - eexists _, _. split; [apply deepseek_compute_metrics_eq |].
    split; [apply deepseek_compute_metrics_eq |]. simpl.
    split; [done |]. split; [done |]. apply f1_formula_symmetric.
Qed.

Lemma f1_score_symmetric_witness :
  (∃ m m', compute_metrics (mkCounts 2 1 3 0) = Ok m ∧
     compute_metrics (mkCounts 2 3 1 0) = Ok m' ∧
     precision m' = recall m ∧ recall m' = precision m ∧
     (f1_score m' == f1_score m)%Q) ∧
  (∃ m m', DeepSeek.compute_metrics (DeepSeek.mkCounts 2 1 3) = Ok m ∧
     DeepSeek.compute_metrics (DeepSeek.mkCounts 2 3 1) = Ok m' ∧
     DeepSeek.precision m' = DeepSeek.recall m ∧
     DeepSeek.recall m' = DeepSeek.precision m ∧
     (DeepSeek.f1_score m' == DeepSeek.f1_score m)%Q).
Proof.
  apply (f1_score_symmetric (mkCounts 2 1 3 0)); simpl; lia.
Defined.

(** ** Invariants of the count accumulation pass *)

Section PassInvariants.
Context {G : Type}.
Variable safe_query : G → string → G * result (list Row).

(** The pass from the initial locals. *)
Lemma calculate_counts_loop (g g' : G) (results : list DataPoint)
    (oq oi : Counts) (tc : gmap string LevelCounts) :
  calculate_counts safe_query g results = Ok (g', (oq, oi, tc)) →
  ∃ L, loop safe_query g init_locals results = Ok (g', L) ∧
    overall_query L = oq ∧ overall_item L = oi ∧ type_counts L = tc.
Proof.
  unfold calculate_counts.
  destruct (loop safe_query g init_locals results) as [[g1 L] |]; [| done].
  simpl. intros [= <- <- <- <-]. by exists L.
Qed.

Lemma loop_query_fp_tn (g g' : G) (results : list DataPoint) (L : Locals) :
  loop safe_query g init_locals results = Ok (g', L) →
  FP (overall_query L) = 0 ∧ TN (overall_query L) = 0 ∧
  ∀ qtype lc, type_counts L !! qtype = Some lc →
    FP (query_level lc) = 0 ∧ TN (query_level lc) = 0.
Proof.
  apply (loop_invariant safe_query
           (fun L => FP (overall_query L) = 0 ∧ TN (overall_query L) = 0 ∧
                     ∀ qtype lc, type_counts L !! qtype = Some lc →
                       FP (query_level lc) = 0 ∧ TN (query_level lc) = 0)
           results).
  - intros data_point g0 g2 L0 L2 _ HP Hstep.
    by apply (step_query_fp_tn safe_query g0 g2 L0 L2 data_point).
  - simpl. split; [done |]. split; [done |].
    intros qtype lc. by rewrite lookup_empty.
Qed.

(** The item-level code adds the counts of the two bound result sets. *)
Lemma item_eval_sets (qtype : string) (L L' : Locals) :
  item_eval qtype L = Ok L' →
  ∃ gen sam,
    generated_results L = Some gen ∧ sample_results L = Some sam ∧
    let tp := Z.of_nat (size (gen ∩ sam)) in
    let fn := Z.of_nat (size (sam ∖ gen)) in
    let fp := Z.of_nat (size (gen ∖ sam)) in
    L' = mkLocals (overall_query L) (add_items (overall_item L) tp fn fp)
           (alter (on_item_level (fun c => add_items c tp fn fp)) qtype
                  (type_counts L))
           (Some gen) (Some sam).
Proof.
  unfold item_eval.
  destruct (generated_results L) as [gen |] eqn:Hgen; [| done].
  destruct (sample_results L) as [sam |] eqn:Hsam; [| done].
  simpl. intros [= <-]. by exists gen, sam.
Qed.

(** A returning step of an evaluated case, with the sets it counted. *)
Lemma step_evaluated_shape (g g' : G) (L L' : Locals) (data_point : DataPoint) :
  step safe_query g L data_point = Ok (g', L') →
  truthy (response_of data_point) && truthy (sparql data_point) = true →
  ∃ f gen sam,
    (f = incr_TP ∨ f = incr_FN) ∧
    let qtype := qtype_of data_point in
    let L0 := ensure_bucket qtype L in
    let tp := Z.of_nat (size (gen ∩ sam)) in
    let fn := Z.of_nat (size (sam ∖ gen)) in
    let fp := Z.of_nat (size (gen ∖ sam)) in
    L' = mkLocals (f (overall_query L0)) (add_items (overall_item L0) tp fn fp)
           (alter (on_item_level (fun c => add_items c tp fn fp)) qtype
              (alter (on_query_level f) qtype (type_counts L0)))
           (Some gen) (Some sam).
Proof.
  intros Hstep Hguard.
  destruct (step_eval safe_query g L data_point Hguard)
    as (r & q & _ & _ & Heq).
  rewrite Heq in Hstep. clear Heq.
  destruct (query_eval_shape safe_query (qtype_of data_point) r q g
              (ensure_bucket (qtype_of data_point) L))
    as (f & gen0 & sam0 & g1 & Hf & Heq).
  rewrite Heq in Hstep. clear Heq.
  destruct (item_eval _ _) as [L2 |] eqn:Hitem; [| done].
  simpl in Hstep. injection Hstep as <- <-.
  apply item_eval_sets in Hitem as (gen & sam & _ & _ & ->).
  by exists f, gen, sam.
Qed.

Lemma ensure_bucket_present (qtype : string) (L : Locals) :
  ∃ lc, type_counts (ensure_bucket qtype L) !! qtype = Some lc ∧
    (type_counts L !! qtype = Some lc ∨
     type_counts L !! qtype = None ∧ lc = zero_level).
Proof.
  rewrite ensure_bucket_lookup.
  destruct (type_counts L !! qtype) as [lc |] eqn:Hq.
  - exists lc. split; [done |]. by left.
  - exists zero_level. rewrite decide_True by done. split; [done |]. by right.
Qed.

(** A property of single counts that the three updates preserve holds
    for every count of the locals after a returning step. *)
Lemma step_counts_invariant (Pq Pi : Counts → Prop)
    (g g' : G) (L L' : Locals) (data_point : DataPoint) :
  Pq zero_counts → Pi zero_counts →
  (∀ c, Pq c → Pq (incr_TP c) ∧ Pq (incr_FN c)) →
  (∀ c (a b d : nat),
     Pi c → Pi (add_items c (Z.of_nat a) (Z.of_nat b) (Z.of_nat d))) →
  step safe_query g L data_point = Ok (g', L') →
  (Pq (overall_query L) ∧ Pi (overall_item L) ∧
   ∀ qtype lc, type_counts L !! qtype = Some lc →
     Pq (query_level lc) ∧ Pi (item_level lc)) →
  Pq (overall_query L') ∧ Pi (overall_item L') ∧
  ∀ qtype lc, type_counts L' !! qtype = Some lc →
    Pq (query_level lc) ∧ Pi (item_level lc).
Proof.
  intros Hq0 Hi0 Hq Hi Hstep (HPq & HPi & HP).
  assert (Hbucket : ∀ qtype lc,
            type_counts (ensure_bucket (qtype_of data_point) L) !! qtype
            = Some lc → Pq (query_level lc) ∧ Pi (item_level lc)).
  { intros qtype lc. rewrite ensure_bucket_lookup.
    destruct (type_counts L !! qtype) as [lc0 |] eqn:Hlc.
    - intros [= <-]. by apply (HP qtype).
    - case_decide; [| done]. by intros [= <-]. }
  destruct (ensure_bucket_overall (qtype_of data_point) L) as [Hoq Hoi].
  destruct (truthy (response_of data_point) && truthy (sparql data_point))
    eqn:Hguard.
  - apply step_evaluated_shape in Hstep as (f & gen & sam & Hf & ->);
      [| done].
    simpl. rewrite Hoq, Hoi.
    assert (Hf' : ∀ c, Pq c → Pq (f c)).
    { intros c Hc. destruct Hf as [-> | ->]; by apply Hq. }
    split; [by apply Hf' |]. split; [by apply Hi |].
    intros qtype lc Hlc.
    apply lookup_alter_Some in Hlc
      as [(<- & lc1 & Hlc1 & ->) | (_ & Hlc)]; simpl.
    + apply lookup_alter_Some in Hlc1
        as [(_ & lc2 & Hlc2 & ->) | (_ & Hlc2)]; simpl.
      * destruct (Hbucket _ _ Hlc2). split; [by apply Hf' | by apply Hi].
      * destruct (Hbucket _ _ Hlc2). split; [done | by apply Hi].
    + apply lookup_alter_Some in Hlc
        as [(_ & lc2 & Hlc2 & ->) | (_ & Hlc2)]; simpl.
      * destruct (Hbucket _ _ Hlc2). split; [by apply Hf' | done].
      * exact (Hbucket _ _ Hlc2).
  - rewrite (step_skip safe_query g L data_point Hguard) in Hstep.
    injection Hstep as <- <-. by rewrite Hoq, Hoi.
Qed.

Lemma loop_counts_invariant (Pq Pi : Counts → Prop)
    (g g' : G) (results : list DataPoint) (L : Locals) :
  Pq zero_counts → Pi zero_counts →
  (∀ c, Pq c → Pq (incr_TP c) ∧ Pq (incr_FN c)) →
  (∀ c (a b d : nat),
     Pi c → Pi (add_items c (Z.of_nat a) (Z.of_nat b) (Z.of_nat d))) →
  loop safe_query g init_locals results = Ok (g', L) →
  Pq (overall_query L) ∧ Pi (overall_item L) ∧
  ∀ qtype lc, type_counts L !! qtype = Some lc →
    Pq (query_level lc) ∧ Pi (item_level lc).
Proof.
  intros Hq0 Hi0 Hq Hi.
  apply (loop_invariant safe_query
           (fun L => Pq (overall_query L) ∧ Pi (overall_item L) ∧
                     ∀ qtype lc, type_counts L !! qtype = Some lc →
                       Pq (query_level lc) ∧ Pi (item_level lc))
           results).
  - intros data_point g0 g2 L0 L2 _ HP Hstep.
    by apply (step_counts_invariant Pq Pi g0 g2 L0 L2 data_point).
  - simpl. split; [done |]. split; [done |].
    intros qtype lc. by rewrite lookup_empty.
Qed.

End PassInvariants.

(** X3.  The counts that a pass returns are non-negative integers, in
    the overall counts and in every bucket, at both levels. *)
Theorem returned_counts_nonnegative {G : Type}
    (safe_query : G → string → G * result (list Row))
    (g g' : G) (results : list DataPoint)
    (overall_query overall_item : Counts)
    (type_counts : gmap string LevelCounts) :
  calculate_counts safe_query g results
  = Ok (g', (overall_query, overall_item, type_counts)) →
  Totals.nonneg overall_query ∧ Totals.nonneg overall_item ∧
  ∀ qtype lc, type_counts !! qtype = Some lc →
    Totals.nonneg (query_level lc) ∧ Totals.nonneg (item_level lc).
Proof.
  intros Hcalc.
  apply calculate_counts_loop in Hcalc as (L & Hloop & <- & <- & <-).
  revert Hloop.
  apply (loop_counts_invariant safe_query Totals.nonneg Totals.nonneg).
  - unfold Totals.nonneg. simpl. lia.
  - unfold Totals.nonneg. simpl. lia.
  - intros c. unfold Totals.nonneg. simpl. lia.
  - intros c a b d. unfold Totals.nonneg. simpl. lia.
Qed.

Lemma returned_counts_nonnegative_witness :
  ∃ overall_query overall_item type_counts,
    calculate_counts Scenario.safe_query tt
      [Scenario.matching_case; Scenario.timeout_case; Scenario.missing_case]
    = Ok (tt, (overall_query, overall_item, type_counts)) ∧
    Totals.nonneg overall_query ∧ Totals.nonneg overall_item ∧
    ∀ qtype lc, type_counts !! qtype = Some lc →
      Totals.nonneg (query_level lc) ∧ Totals.nonneg (item_level lc).
Proof.
  assert (H : ∃ r, calculate_counts Scenario.safe_query tt
      [Scenario.matching_case; Scenario.timeout_case; Scenario.missing_case]
      = Ok (tt, r)).
  { eexists. vm_compute. reflexivity. }
  destruct H as [[[oq oi] tc] H].
  exists oq, oi, tc. split; [exact H |].
  exact (returned_counts_nonnegative Scenario.safe_query tt tt _ oq oi tc H).
Defined.

(** X4.  The pass never writes an item-level TN: in the counts that a
    pass returns the item-level TN is 0 overall and in every bucket. *)
Theorem item_level_tn_zero {G : Type}
    (safe_query : G → string → G * result (list Row))
    (g g' : G) (results : list DataPoint)
    (overall_query overall_item : Counts)
    (type_counts : gmap string LevelCounts) :
  calculate_counts safe_query g results
  = Ok (g', (overall_query, overall_item, type_counts)) →
  TN overall_item = 0 ∧
  ∀ qtype lc, type_counts !! qtype = Some lc → TN (item_level lc) = 0.
Proof.
  intros Hcalc.
  apply calculate_counts_loop in Hcalc as (L & Hloop & <- & <- & <-).
  destruct (loop_counts_invariant safe_query (fun _ => True)
              (fun c => TN c = 0) g g' results L) as (_ & Hov & Hb); try done.
  split; [done |]. intros qtype lc Hlc. by destruct (Hb qtype lc Hlc).
Qed.

Lemma item_level_tn_zero_witness :
  ∃ overall_query overall_item type_counts,
    calculate_counts Scenario.safe_query tt
      [Scenario.matching_case; Scenario.timeout_case; Scenario.missing_case]
    = Ok (tt, (overall_query, overall_item, type_counts)) ∧
    TN overall_item = 0 ∧
    ∀ qtype lc, type_counts !! qtype = Some lc → TN (item_level lc) = 0.
Proof.
  assert (H : ∃ r, calculate_counts Scenario.safe_query tt
      [Scenario.matching_case; Scenario.timeout_case; Scenario.missing_case]
      = Ok (tt, r)).
  { eexists. vm_compute. reflexivity. }
  destruct H as [[[oq oi] tc] H].
  exists oq, oi, tc. split; [exact H |].
  exact (item_level_tn_zero Scenario.safe_query tt tt _ oq oi tc H).
Defined.

(** X5.  On the query-level counts that a pass returns, overall or of a
    bucket, the metrics are degenerate: accuracy equals recall, the false
    positive rate is 0 and precision is 1 unless TP is 0. *)
Theorem query_level_metrics_degenerate {G : Type}
    (safe_query : G → string → G * result (list Row))
    (g g' : G) (results : list DataPoint)
    (overall_query overall_item : Counts)
    (type_counts : gmap string LevelCounts) (c : Counts) :
  calculate_counts safe_query g results
  = Ok (g', (overall_query, overall_item, type_counts)) →
  c = overall_query ∨
  (∃ qtype lc, type_counts !! qtype = Some lc ∧ c = query_level lc) →
  ∃ m, compute_metrics c = Ok m ∧
    accuracy m = recall m ∧
    (false_positive_rate m == 0)%Q ∧
    (precision m == if decide ((TP c = 0)%Z) then 0 else 1)%Q.
Proof.
  intros Hcalc Hc.
  apply calculate_counts_loop in Hcalc as (L & Hloop & <- & <- & <-).
  apply loop_query_fp_tn in Hloop as (Hfp & Htn & Hb).
  assert (Hzero : FP c = 0 ∧ TN c = 0).
  { destruct Hc as [-> | (qtype & lc & Hlc & ->)]; [done |].
    exact (Hb qtype lc Hlc). }
  destruct Hzero as [Hfp0 Htn0].
  eexists. split; [apply compute_metrics_eq |]. simpl.
  rewrite Hfp0, Htn0, !Z.add_0_r.
  split; [done |]. split.
  - destruct (decide (TP c = 0)); [done |].
    unfold Qdiv. by rewrite Qmult_0_l.
  - destruct (decide (TP c = 0)); [done |]. by apply ratio_self.
Qed.

Lemma query_level_metrics_degenerate_witness :
  ∃ m, compute_metrics (mkCounts 1 1 0 0) = Ok m ∧
    accuracy m = recall m ∧
    (false_positive_rate m == 0)%Q ∧
    (precision m == 1)%Q.
Proof.
  assert (H : ∃ oi tc, calculate_counts Scenario.safe_query tt
      [Scenario.matching_case; Scenario.timeout_case; Scenario.missing_case]
      = Ok (tt, (mkCounts 1 1 0 0, oi, tc))).
  { do 2 eexists. vm_compute. reflexivity. }
  destruct H as (oi & tc & H).
  apply (query_level_metrics_degenerate Scenario.safe_query tt tt _
           (mkCounts 1 1 0 0) oi tc (mkCounts 1 1 0 0) H).
  by left.
Defined.

(** ** When the pass returns and when it raises *)

Section PassOutcome.
Context {G : Type}.
Variable safe_query : G → string → G * result (list Row).

Lemma ensure_bucket_locals (qtype : string) (L : Locals) :
  generated_results (ensure_bucket qtype L) = generated_results L ∧
  sample_results (ensure_bucket qtype L) = sample_results L.
Proof. unfold ensure_bucket. by destruct (type_counts L !! qtype). Qed.

(** The [try] statement never unbinds a result set. *)
Lemma query_eval_bound (qtype r q : string) (g : G) (L : Locals) :
  is_Some (generated_results L) → is_Some (sample_results L) →
  is_Some (generated_results (query_eval safe_query qtype r q g L).2) ∧
  is_Some (sample_results (query_eval safe_query qtype r q g L).2).
Proof.
  intros Hgen Hsam. unfold query_eval.
  destruct (safe_query g r) as [g1 [rows1 | e1]]; [| done].
  destruct (safe_query g1 q) as [g2 [rows2 | e2]]; [| done].
  case_decide; done.
Qed.

(** Both executions succeed: the outcome of the [try] statement. *)
Lemma query_eval_success (qtype r q : string) (g g1 g2 : G) (L : Locals)
    (rows1 rows2 : list Row) :
  safe_query g r = (g1, Ok rows1) → safe_query g1 q = (g2, Ok rows2) →
  let f := if decide ((list_to_set rows1 : gset Row) = list_to_set rows2)
           then incr_TP else incr_FN in
  query_eval safe_query qtype r q g L
  = (g2, mkLocals (f (overall_query L)) (overall_item L)
           (alter (on_query_level f) qtype (type_counts L))
           (Some (list_to_set rows1)) (Some (list_to_set rows2))).
Proof.
  intros H1 H2. unfold query_eval. rewrite H1, H2. by case_decide.
Qed.

Lemma item_eval_bound (qtype : string) (L : Locals) :
  is_Some (generated_results L) → is_Some (sample_results L) →
  ∃ L', item_eval qtype L = Ok L' ∧
    generated_results L' = generated_results L ∧
    sample_results L' = sample_results L.
Proof.
  intros [gen Hgen] [sam Hsam]. unfold item_eval. rewrite Hgen, Hsam.
  simpl. by eexists.
Qed.

(** With both result sets bound, a step returns and keeps them bound. *)
Lemma step_bound_returns (g : G) (L : Locals) (data_point : DataPoint) :
  is_Some (generated_results L) → is_Some (sample_results L) →
  ∃ g' L', step safe_query g L data_point = Ok (g', L') ∧
    is_Some (generated_results L') ∧ is_Some (sample_results L').
Proof.
  intros Hgen Hsam.
  destruct (ensure_bucket_locals (qtype_of data_point) L) as [Hg Hs].
  destruct (truthy (response_of data_point) && truthy (sparql data_point))
    eqn:Hguard.
  - destruct (step_eval safe_query g L data_point Hguard)
      as (r & q & _ & _ & ->).
    destruct (query_eval_bound (qtype_of data_point) r q g
                (ensure_bucket (qtype_of data_point) L)) as [Hg1 Hs1].
    { by rewrite Hg. } { by rewrite Hs. }
    destruct (query_eval _ _ _ _ _ _) as [g1 L1]. simpl in Hg1, Hs1.
    destruct (item_eval_bound (qtype_of data_point) L1 Hg1 Hs1)
      as (L2 & -> & Hg2 & Hs2).
    simpl. exists g1, L2. by rewrite Hg2, Hs2.
  - rewrite (step_skip safe_query g L data_point Hguard).
    exists g, (ensure_bucket (qtype_of data_point) L). by rewrite Hg, Hs.
Qed.

Lemma loop_bound_returns (results : list DataPoint) :
  ∀ g L,
    is_Some (generated_results L) → is_Some (sample_results L) →
    ∃ g' L', loop safe_query g L results = Ok (g', L').
Proof.
  induction results as [| d rest IH]; intros g L Hgen Hsam.
  - by exists g, L.
  - simpl. destruct (step_bound_returns g L d Hgen Hsam)
      as (g1 & L1 & -> & Hg1 & Hs1).
    simpl. by apply IH.
Qed.

(** An evaluated case whose two executions succeed is scored and binds
    both result sets. *)
Lemma step_success (g g1 g2 : G) (L : Locals) (data_point : DataPoint)
    (r q : string) (rows1 rows2 : list Row) :
  response_of data_point = Some r → r ≠ ""%string →
  sparql data_point = Some q → q ≠ ""%string →
  safe_query g r = (g1, Ok rows1) → safe_query g1 q = (g2, Ok rows2) →
  let qtype := qtype_of data_point in
  let L0 := ensure_bucket qtype L in
  let f := if decide ((list_to_set rows1 : gset Row) = list_to_set rows2)
           then incr_TP else incr_FN in
  let tp := Z.of_nat (size ((list_to_set rows1 : gset Row) ∩ list_to_set rows2)) in
  let fn := Z.of_nat (size ((list_to_set rows2 : gset Row) ∖ list_to_set rows1)) in
  let fp := Z.of_nat (size ((list_to_set rows1 : gset Row) ∖ list_to_set rows2)) in
  step safe_query g L data_point
  = Ok (g2, mkLocals (f (overall_query L0))
              (add_items (overall_item L0) tp fn fp)
              (alter (on_item_level (fun c => add_items c tp fn fp)) qtype
                 (alter (on_query_level f) qtype (type_counts L0)))
              (Some (list_to_set rows1)) (Some (list_to_set rows2))).
Proof.
  intros Hr Hr' Hq Hq' H1 H2. unfold step. rewrite Hr, Hq. simpl.
  apply String.eqb_neq in Hr', Hq'. rewrite Hr', Hq'. simpl.
  rewrite (query_eval_success _ r q g g1 g2 _ rows1 rows2 H1 H2).
  reflexivity.
Qed.

(** A step raises nothing but the error of reading an unbound result
    set. *)
Lemma step_raises (g : G) (L : Locals) (data_point : DataPoint) (e : exn) :
  step safe_query g L data_point = Raise e →
  e = UnboundLocalError "generated_results"
  ∨ e = UnboundLocalError "sample_results".
Proof.
  intros Hstep.
  destruct (truthy (response_of data_point) && truthy (sparql data_point))
    eqn:Hguard.
  - destruct (step_eval safe_query g L data_point Hguard)
      as (r & q & _ & _ & Heq).
    rewrite Heq in Hstep. clear Heq.
    destruct (query_eval _ _ _ _ _ _) as [g1 L1].
    unfold item_eval in Hstep.
    destruct (generated_results L1); [| injection Hstep as <-; by left].
    destruct (sample_results L1); [done | injection Hstep as <-; by right].
  - by rewrite (step_skip safe_query g L data_point Hguard) in Hstep.
Qed.

Lemma loop_raises (results : list DataPoint) :
  ∀ g L e,
    loop safe_query g L results = Raise e →
    e = UnboundLocalError "generated_results"
    ∨ e = UnboundLocalError "sample_results".
Proof.
  induction results as [| d rest IH]; intros g L e Hloop; [done |].
  simpl in Hloop.
  destruct (step safe_query g L d) as [[g1 L1] | e1] eqn:Hstep.
  - simpl in Hloop. by apply (IH g1 L1).
  - simpl in Hloop. injection Hloop as <-. by apply (step_raises g L d).
Qed.

(** The cases that are not evaluated leave the graph store and the
    result sets alone and never raise. *)
Lemma loop_skipped (results : list DataPoint) :
  Forall (fun d => Totals.evaluated d = false) results →
  ∀ g L, ∃ L', loop safe_query g L results = Ok (g, L') ∧
    generated_results L' = generated_results L ∧
    sample_results L' = sample_results L.
Proof.
  induction 1 as [| d rest Hd _ IH]; intros g L.
  - by exists L.
  - simpl. rewrite (step_skip safe_query g L d Hd). simpl.
    destruct (IH g (ensure_bucket (qtype_of d) L)) as (L' & -> & Hg & Hs).
    exists L'. split; [done |].
    destruct (ensure_bucket_locals (qtype_of d) L) as [Hg0 Hs0].
    by rewrite Hg, Hs, Hg0, Hs0.
Qed.

Lemma loop_app (xs ys : list DataPoint) (g : G) (L : Locals) :
  loop safe_query g L (xs ++ ys)
  = '(g', L') ← loop safe_query g L xs; loop safe_query g' L' ys.
Proof.
  revert g L. induction xs as [| d rest IH]; intros g L; [done |].
  simpl. destruct (step safe_query g L d) as [[g1 L1] | e]; [| done].
  simpl. apply IH.
Qed.

End PassOutcome.

(** X6.  A failing query execution never escapes the pass: when
    [calculate_counts] raises, the exception is the one of reading
    [generated_results] or [sample_results] before it was bound. *)
Theorem only_unbound_local_escapes {G : Type}
    (safe_query : G → string → G * result (list Row))
    (g : G) (results : list DataPoint) (e : exn) :
  calculate_counts safe_query g results = Raise e →
  e = UnboundLocalError "generated_results"
  ∨ e = UnboundLocalError "sample_results".
Proof.
  unfold calculate_counts.
  destruct (loop safe_query g init_locals results) as [[g1 L] | e1] eqn:Hloop;
    [done |].
  simpl. intros [= <-]. by apply (loop_raises safe_query results g init_locals).
Qed.

Lemma only_unbound_local_escapes_witness :
  UnboundLocalError "generated_results"
  = UnboundLocalError "generated_results"
  ∨ UnboundLocalError "generated_results"
    = UnboundLocalError "sample_results".
Proof.
  apply (only_unbound_local_escapes Scenario.safe_query tt
           [Scenario.timeout_case]).
  vm_compute. reflexivity.
Defined.

(** X7.  Once one case has been evaluated with both executions
    succeeding, the pass returns whatever the later executions do: if the
    cases before the first evaluated case are all skipped and the two
    queries of that case return, [calculate_counts] returns counts. *)
Theorem first_success_guards_pass {G : Type}
    (safe_query : G → string → G * result (list Row))
    (g g1 g2 : G) (skipped rest : list DataPoint) (data_point : DataPoint)
    (r q : string) (rows1 rows2 : list Row) :
  Forall (fun d => Totals.evaluated d = false) skipped →
  response_of data_point = Some r → r ≠ ""%string →
  sparql data_point = Some q → q ≠ ""%string →
  safe_query g r = (g1, Ok rows1) → safe_query g1 q = (g2, Ok rows2) →
  ∃ res, calculate_counts safe_query g (skipped ++ data_point :: rest)
         = Ok res.
Proof.
  intros Hskipped Hr Hr' Hq Hq' H1 H2. unfold calculate_counts.
  rewrite loop_app.
  destruct (loop_skipped safe_query skipped Hskipped g init_locals)
    as (L0 & -> & _ & _).
  simpl.
  rewrite (step_success safe_query g g1 g2 L0 data_point r q rows1 rows2)
    by done.
  simpl.
  match goal with
  | |- context [loop safe_query g2 ?L1 rest] =>
    destruct (loop_bound_returns safe_query rest g2 L1) as (g' & L' & ->);
      [by eexists | by eexists |]
  end.
  simpl. by eexists.
Qed.

Lemma first_success_guards_pass_witness :
  ∃ res, calculate_counts Scenario.safe_query tt
           ([Scenario.missing_case]
            ++ Scenario.matching_case :: [Scenario.timeout_case])
         = Ok res.
Proof.
  apply (first_success_guards_pass Scenario.safe_query tt tt tt
           [Scenario.missing_case] [Scenario.timeout_case]
           Scenario.matching_case "GOLD" "GOLD"
           [ResultRow ["GOLD"%string]; ResultRow ["x"%string]]
           [ResultRow ["GOLD"%string]; ResultRow ["x"%string]]).
  - repeat constructor.
  - reflexivity.
  - discriminate.
  - reflexivity.
  - discriminate.
  - reflexivity.
  - reflexivity.
Defined.

(** X8.  On a graph store in which no query raises, the pass returns
    counts for every data set. *)
Theorem reliable_store_pass_returns {G : Type}
    (safe_query : G → string → G * result (list Row))
    (g : G) (results : list DataPoint) :
  (∀ g0 query, ∃ g1 rows, safe_query g0 query = (g1, Ok rows)) →
  ∃ res, calculate_counts safe_query g results = Ok res.
Proof.
  intros Hreliable.
  assert (Hloop : ∀ g L, ∃ g' L', loop safe_query g L results = Ok (g', L')).
  { induction results as [| d rest IH]; intros g0 L; [by exists g0, L |].
    simpl.
    destruct (truthy (response_of d) && truthy (sparql d)) eqn:Hguard.
    - apply andb_true_iff in Hguard as [Hr Hq].
      apply truthy_Some in Hr as (r & Hr & Hr').
      apply truthy_Some in Hq as (q & Hq & Hq').
      destruct (Hreliable g0 r) as (g1 & rows1 & H1).
      destruct (Hreliable g1 q) as (g2 & rows2 & H2).
      rewrite (step_success safe_query g0 g1 g2 L d r q rows1 rows2)
        by done.
      simpl. apply (loop_bound_returns safe_query); by eexists.
    - rewrite (step_skip safe_query g0 L d Hguard). simpl. apply IH. }
  unfold calculate_counts.
  destruct (Hloop g init_locals) as (g' & L' & ->). simpl. by eexists.
Qed.

Lemma reliable_store_pass_returns_witness :
  ∃ res, calculate_counts Totals.reliable_query 0%nat
           [Scenario.timeout_case; Scenario.missing_case] = Ok res.
Proof.
  apply (reliable_store_pass_returns Totals.reliable_query 0%nat
           [Scenario.timeout_case; Scenario.missing_case]).
  intros g0 query. by exists (S g0), [ResultRow [query]].
Defined.

(** ** How one evaluated case is scored *)

Section Scoring.
Context {A : Type} {A_eq_dec : EqDecision A} {A_countable : Countable A}.

(** Two sets are equal exactly when both differences are empty. *)
Lemma equal_iff_no_differences (X Y : gset A) :
  X = Y ↔ size (Y ∖ X) = 0%nat ∧ size (X ∖ Y) = 0%nat.
Proof.
  split.
  - intros ->. rewrite difference_diag_L. by rewrite size_empty.
  - intros [H1 H2]. apply size_empty_inv in H1, H2.
    apply leibniz_equiv in H1, H2.
    apply set_eq. intros x. split; intros Hx.
    + destruct (decide (x ∈ Y)) as [| Hn]; [done |].
      assert (Hd : x ∈ X ∖ Y) by (apply elem_of_difference; done).
      rewrite H2 in Hd. by apply not_elem_of_empty in Hd.
    + destruct (decide (x ∈ X)) as [| Hn]; [done |].
      assert (Hd : x ∈ Y ∖ X) by (apply elem_of_difference; done).
      rewrite H1 in Hd. by apply not_elem_of_empty in Hd.
Qed.

End Scoring.

(** X9.  An evaluated case whose two executions succeed is scored from
    the fresh result sets: the item counts of the two sets are added to
    the overall bucket and to the bucket of its question type, and the
    query-level outcome is a TP exactly when the item-level comparison
    finds no false negative and no false positive, an FN otherwise. *)
Theorem successful_case_scored {G : Type}
    (safe_query : G → string → G * result (list Row))
    (g g1 g2 : G) (L : Locals) (data_point : DataPoint)
    (r q : string) (rows1 rows2 : list Row) :
  response_of data_point = Some r → r ≠ ""%string →
  sparql data_point = Some q → q ≠ ""%string →
  safe_query g r = (g1, Ok rows1) → safe_query g1 q = (g2, Ok rows2) →
  let generated : gset Row := list_to_set rows1 in
  let sample : gset Row := list_to_set rows2 in
  let qtype := qtype_of data_point in
  let before := default zero_level (type_counts L !! qtype) in
  ∃ L' tp fn fp,
    step safe_query g L data_point = Ok (g2, L') ∧
    item_counts generated sample = (tp, fn, fp) ∧
    generated_results L' = Some generated ∧
    sample_results L' = Some sample ∧
    overall_item L' = add_items (overall_item L) tp fn fp ∧
    (fn = 0 ∧ fp = 0 →
     overall_query L' = incr_TP (overall_query L) ∧
     type_counts L' !! qtype
     = Some (mkLevelCounts (incr_TP (query_level before))
               (add_items (item_level before) tp fn fp))) ∧
    (¬ (fn = 0 ∧ fp = 0) →
     overall_query L' = incr_FN (overall_query L) ∧
     type_counts L' !! qtype
     = Some (mkLevelCounts (incr_FN (query_level before))
               (add_items (item_level before) tp fn fp))).
Proof.
  intros Hr Hr' Hq Hq' H1 H2 generated sample qtype before.
  pose proof (step_success safe_query g g1 g2 L data_point r q rows1 rows2
                Hr Hr' Hq Hq' H1 H2) as Hstep.
  simpl in Hstep. fold generated sample qtype in Hstep.
  destruct (ensure_bucket_overall qtype L) as [Hoq Hoi].
  rewrite Hoq, Hoi in Hstep.
  assert (Hbefore : type_counts (ensure_bucket qtype L) !! qtype
                    = Some before).
  { rewrite ensure_bucket_lookup. subst before.
    destruct (type_counts L !! qtype); [done |].
    by rewrite decide_True. }
  eexists _, _, _, _. split; [exact Hstep |].
  split; [reflexivity |]. simpl.
  split; [done |]. split; [done |]. split; [done |].
  rewrite !lookup_alter_eq, Hbefore. simpl.
  pose proof (equal_iff_no_differences generated sample) as Heq.
  split.
  - intros [Hfn Hfp]. rewrite decide_True; [done |].
    apply Heq. lia.
  - intros Hne. rewrite decide_False; [done |].
    intros Hsame. apply Hne. apply Heq in Hsame. lia.
Qed.

Lemma successful_case_scored_witness :
  ∃ L' tp fn fp,
    step Scenario.safe_query tt init_locals Scenario.matching_case
    = Ok (tt, L') ∧
    item_counts
      (list_to_set [ResultRow ["GOLD"%string]; ResultRow ["x"%string]])
      (list_to_set [ResultRow ["GOLD"%string]; ResultRow ["x"%string]])
    = (tp, fn, fp) ∧
    generated_results L'
    = Some (list_to_set [ResultRow ["GOLD"%string]; ResultRow ["x"%string]]) ∧
    sample_results L'
    = Some (list_to_set [ResultRow ["GOLD"%string]; ResultRow ["x"%string]]) ∧
    overall_item L' = add_items (overall_item init_locals) tp fn fp ∧
    (fn = 0 ∧ fp = 0 →
     overall_query L' = incr_TP (overall_query init_locals) ∧
     type_counts L' !! "director"%string
     = Some (mkLevelCounts (incr_TP zero_counts)
               (add_items zero_counts tp fn fp))) ∧
    (¬ (fn = 0 ∧ fp = 0) →
     overall_query L' = incr_FN (overall_query init_locals) ∧
     type_counts L' !! "director"%string
     = Some (mkLevelCounts (incr_FN zero_counts)
               (add_items zero_counts tp fn fp))).
Proof.
  apply (successful_case_scored Scenario.safe_query tt tt tt init_locals
           Scenario.matching_case "GOLD" "GOLD"
           [ResultRow ["GOLD"%string]; ResultRow ["x"%string]]
           [ResultRow ["GOLD"%string]; ResultRow ["x"%string]]).
  - reflexivity.
  - discriminate.
  - reflexivity.
  - discriminate.
  - reflexivity.
  - reflexivity.
Defined.

(** ** The overall counts against the buckets *)

Section BucketSums.
Context {G : Type}.
Variable safe_query : G → string → G * result (list Row).

Lemma fold_zero_r (a : Counts) : fold a zero_counts = a.
Proof. destruct a. unfold fold. simpl. f_equal; lia. Qed.

Lemma fold_swap (a b c : Counts) : fold (fold a b) c = fold (fold a c) b.
Proof. unfold fold. simpl. f_equal; lia. Qed.

Lemma sum_buckets_insert (level : LevelCounts → Counts)
    (m : gmap string LevelCounts) (k : string) (x : LevelCounts) :
  m !! k = None →
  Totals.sum_buckets level (<[k := x]> m)
  = fold (Totals.sum_buckets level m) (level x).
Proof.
  intros Hk. unfold Totals.sum_buckets.
  apply (map_fold_insert_L
           (fun (_ : string) (lc : LevelCounts) acc => fold acc (level lc)));
    [| done].
  intros. apply fold_swap.
Qed.

Lemma sum_buckets_split (level : LevelCounts → Counts)
    (m : gmap string LevelCounts) (k : string) (x : LevelCounts) :
  m !! k = Some x →
  Totals.sum_buckets level m
  = fold (Totals.sum_buckets level (delete k m)) (level x).
Proof.
  intros Hk.
  rewrite <- (sum_buckets_insert level (delete k m) k x)
    by apply lookup_delete_eq.
  by rewrite insert_delete_id.
Qed.

Lemma sum_buckets_alter (level : LevelCounts → Counts)
    (h : LevelCounts → LevelCounts)
    (m : gmap string LevelCounts) (k : string) (x : LevelCounts) :
  m !! k = Some x →
  Totals.sum_buckets level (alter h k m)
  = fold (Totals.sum_buckets level (delete k m)) (level (h x)).
Proof.
  intros Hk.
  rewrite <- (sum_buckets_insert level (delete k m) k (h x))
    by apply lookup_delete_eq.
  f_equal. apply map_eq. intros j.
  rewrite lookup_alter, lookup_insert.
  case_decide; [by rewrite Hk |]. by rewrite lookup_delete_ne.
Qed.

Lemma ensure_bucket_sum (level : LevelCounts → Counts) (qtype : string)
    (L : Locals) :
  level zero_level = zero_counts →
  Totals.sum_buckets level (type_counts (ensure_bucket qtype L))
  = Totals.sum_buckets level (type_counts L).
Proof.
  intros Hzero. unfold ensure_bucket.
  destruct (type_counts L !! qtype) eqn:Hq; [done |]. simpl.
  rewrite sum_buckets_insert by done. rewrite Hzero. apply fold_zero_r.
Qed.

(** A returning step keeps the overall counts equal to the sums over
    the buckets. *)
Lemma step_bucket_sums (g g' : G) (L L' : Locals) (data_point : DataPoint) :
  step safe_query g L data_point = Ok (g', L') →
  overall_query L = Totals.sum_buckets query_level (type_counts L) ∧
  overall_item L = Totals.sum_buckets item_level (type_counts L) →
  overall_query L' = Totals.sum_buckets query_level (type_counts L') ∧
  overall_item L' = Totals.sum_buckets item_level (type_counts L').
Proof.
  intros Hstep [Hq Hi].
  set (qtype := qtype_of data_point).
  destruct (ensure_bucket_overall qtype L) as [Hoq Hoi].
  pose proof (ensure_bucket_sum query_level qtype L eq_refl) as Hsq.
  pose proof (ensure_bucket_sum item_level qtype L eq_refl) as Hsi.
  destruct (truthy (response_of data_point) && truthy (sparql data_point))
    eqn:Hguard.
  - apply step_evaluated_shape in Hstep as (f & gen & sam & Hf & ->);
      [| done].
    fold qtype. simpl.
    destruct (ensure_bucket_present qtype L) as (x & Hx & _).
    rewrite Hoq, Hoi, Hq, Hi, <- Hsq, <- Hsi.
    set (m := type_counts (ensure_bucket qtype L)) in *.
    assert (Hx' : alter (on_query_level f) qtype m !! qtype
                  = Some (on_query_level f x)).
    { by rewrite lookup_alter_eq, Hx. }
    rewrite !(sum_buckets_alter _ _ _ qtype _ Hx').
    assert (Hdel : delete qtype (alter (on_query_level f) qtype m)
                   = delete qtype m).
    { apply map_eq. intros j. destruct (decide (qtype = j)) as [<- | Hne].
      - by rewrite !lookup_delete_eq.
      - by rewrite !lookup_delete_ne, lookup_alter_ne. }
    rewrite Hdel.
    rewrite (sum_buckets_split query_level m qtype x Hx).
    rewrite (sum_buckets_split item_level m qtype x Hx).
    simpl. split.
    + destruct Hf as [-> | ->]; unfold incr_TP, incr_FN, fold; simpl;
        f_equal; lia.
    + unfold add_items, fold. simpl. f_equal; lia.
  - rewrite (step_skip safe_query g L data_point Hguard) in Hstep.
    injection Hstep as <- <-. fold qtype. by rewrite Hoq, Hoi, Hsq, Hsi.
Qed.

(** The number of query-level outcomes grows by one per evaluated
    case. *)
Lemma loop_query_support (results : list DataPoint) :
  ∀ g g' L L',
    loop safe_query g L results = Ok (g', L') →
    TP (overall_query L') + FN (overall_query L')
    = TP (overall_query L) + FN (overall_query L)
      + Z.of_nat (length (filter (fun d => Totals.evaluated d = true)
                                 results)).
Proof.
  induction results as [| d rest IH]; intros g g' L L' Hloop.
  - simpl in Hloop. injection Hloop as <- <-. simpl. lia.
  - simpl in Hloop.
    destruct (step safe_query g L d) as [[g1 L1] |] eqn:Hstep; [| done].
    simpl in Hloop. rewrite (IH g1 g' L1 L' Hloop).
    destruct (ensure_bucket_overall (qtype_of d) L) as [Hoq _].
    rewrite filter_cons.
    apply step_shape in Hstep as
      [(Hguard & _ & ->) | (Hguard & f & tp & fn & fp & Hf & -> & _)].
    + rewrite decide_False by (unfold Totals.evaluated; congruence).
      rewrite Hoq. lia.
    + rewrite decide_True by done. rewrite Hoq.
      rewrite length_cons.
      destruct Hf as [-> | ->]; simpl; lia.
Qed.

End BucketSums.

(** X10.  In the counts that a pass returns, the overall counts are the
    field-wise sums of the counts of the buckets, at query level and at
    item level. *)
Theorem overall_is_sum_of_buckets {G : Type}
    (safe_query : G → string → G * result (list Row))
    (g g' : G) (results : list DataPoint)
    (overall_query overall_item : Counts)
    (type_counts : gmap string LevelCounts) :
  calculate_counts safe_query g results
  = Ok (g', (overall_query, overall_item, type_counts)) →
  overall_query = Totals.sum_buckets query_level type_counts ∧
  overall_item = Totals.sum_buckets item_level type_counts.
Proof.
  intros Hcalc.
  apply calculate_counts_loop in Hcalc as (L & Hloop & <- & <- & <-).
  revert Hloop.
  apply (loop_invariant safe_query
           (fun L => RunMetrics.overall_query L
                     = Totals.sum_buckets query_level (RunMetrics.type_counts L)
                     ∧ RunMetrics.overall_item L
                       = Totals.sum_buckets item_level
                           (RunMetrics.type_counts L))
           results).
  - intros d g0 g2 L0 L2 _ HP Hstep.
    by apply (step_bucket_sums safe_query g0 g2 L0 L2 d).
  - done.
Qed.

Lemma overall_is_sum_of_buckets_witness :
  ∃ overall_query overall_item type_counts,
    calculate_counts Scenario.safe_query tt
      [Scenario.genre_case; Scenario.matching_case; Scenario.timeout_case]
    = Ok (tt, (overall_query, overall_item, type_counts)) ∧
    overall_query = Totals.sum_buckets query_level type_counts ∧
    overall_item = Totals.sum_buckets item_level type_counts.
Proof.
  assert (H : ∃ r, calculate_counts Scenario.safe_query tt
      [Scenario.genre_case; Scenario.matching_case; Scenario.timeout_case]
      = Ok (tt, r)).
  { eexists. vm_compute. reflexivity. }
  destruct H as [[[oq oi] tc] H].
  exists oq, oi, tc. split; [exact H |].
  exact (overall_is_sum_of_buckets Scenario.safe_query tt tt _ oq oi tc H).
Defined.

(** X11.  In the counts that a pass returns, the overall query-level TP
    and FN add up to the number of evaluated cases, the cases with a
    non-empty candidate and gold query string: an evaluated case is
    counted once and a skipped case not at all. *)
Theorem query_support_counts_evaluated {G : Type}
    (safe_query : G → string → G * result (list Row))
    (g g' : G) (results : list DataPoint)
    (overall_query overall_item : Counts)
    (type_counts : gmap string LevelCounts) :
  calculate_counts safe_query g results
  = Ok (g', (overall_query, overall_item, type_counts)) →
  TP overall_query + FN overall_query
  = Z.of_nat (length (filter (fun d => Totals.evaluated d = true) results)).
Proof.
  intros Hcalc.
  apply calculate_counts_loop in Hcalc as (L & Hloop & <- & _ & _).
  by rewrite (loop_query_support safe_query results g g' init_locals L Hloop).
Qed.

Lemma query_support_counts_evaluated_witness :
  ∃ overall_query overall_item type_counts,
    calculate_counts Scenario.safe_query tt
      [Scenario.matching_case; Scenario.timeout_case; Scenario.missing_case]
    = Ok (tt, (overall_query, overall_item, type_counts)) ∧
    TP overall_query + FN overall_query = 2.
Proof.
  assert (H : ∃ r, calculate_counts Scenario.safe_query tt
      [Scenario.matching_case; Scenario.timeout_case; Scenario.missing_case]
      = Ok (tt, r)).
  { eexists. vm_compute. reflexivity. }
  destruct H as [[[oq oi] tc] H].
  exists oq, oi, tc. split; [exact H |].
  exact (query_support_counts_evaluated Scenario.safe_query tt tt _ oq oi tc H).
Defined.

(** ** The analysis of [main] *)

Section MainAnalysis.

Lemma analyse_fields (counts : LevelCounts) (a : Analysis) :
  analyse counts = Ok a →
  query_level_counts a = query_level counts ∧
  item_level_counts a = item_level counts ∧
  compute_metrics (query_level counts) = Ok (query_level_metrics a) ∧
  compute_metrics (item_level counts) = Ok (item_level_metrics a) ∧
  average_item_counts (query_level counts) (item_level counts)
  = Ok (average_item_counts_per_query a).
Proof.
  unfold analyse.
  destruct (compute_metrics (query_level counts)) as [qm |]; [| done].
  destruct (compute_metrics (item_level counts)) as [im |]; [| done].
  destruct (average_item_counts _ _) as [avg |]; [| done].
  simpl. by intros [= <-].
Qed.

Lemma map_to_list_key_absent (m : gmap string LevelCounts) (k : string) :
  m !! k = None → k ∉ (map_to_list m).*1.
Proof.
  intros Hk Hin. apply list_elem_of_fmap in Hin as ([k' x] & -> & Hin).
  apply elem_of_map_to_list in Hin. simpl in Hk. congruence.
Qed.

(** The per type analysis has an entry exactly for the buckets. *)
Lemma per_type_analysis_keys (tc : gmap string LevelCounts) :
  ∃ m, per_type_analysis tc = Ok m ∧
    (∀ qtype, tc !! qtype = None → m !! qtype = None) ∧
    (∀ qtype counts, tc !! qtype = Some counts →
       ∃ a, m !! qtype = Some a ∧ analyse counts = Ok a).
Proof.
  unfold per_type_analysis.
  destruct (analyse_items_spec (map_to_list tc) ∅) as (m & Hm & Hout & Hin).
  exists m. split; [done |]. split.
  - intros qtype Hnone.
    rewrite (Hout qtype (map_to_list_key_absent tc qtype Hnone)).
    apply lookup_empty.
  - intros qtype counts Hsome.
    destruct (analyse_total counts) as [a Ha]. exists a. split; [| done].
    apply (Hin (NoDup_fst_map_to_list tc) qtype counts a); [| done].
    by apply elem_of_map_to_list.
Qed.

End MainAnalysis.

(** X12.  On non-negative counts whose item-level entries are below
    [2^1023] the analysis that [main] runs on the counts does not raise,
    also where a bucket or the whole data set has no valid query: it
    returns the metrics of the overall counts and has one entry for every
    bucket and for nothing else, with the counts of the bucket and their
    metrics in it. *)
Theorem analysis_of_counts_returns
    (overall_query overall_item : Counts)
    (type_counts : gmap string LevelCounts) :
  Totals.nonneg overall_query →
  Totals.nonneg overall_item → Totals.in_double_range overall_item →
  (∀ qtype counts, type_counts !! qtype = Some counts →
     Totals.nonneg (query_level counts) ∧
     Totals.nonneg (item_level counts) ∧
     Totals.in_double_range (item_level counts)) →
  ∃ a, Report.analyse_counts overall_query overall_item type_counts = Ok a ∧
    compute_metrics overall_query = Ok (Report.overall_query_metrics a) ∧
    compute_metrics overall_item = Ok (Report.overall_item_metrics a) ∧
    (∀ qtype, type_counts !! qtype = None →
       Report.per_type a !! qtype = None) ∧
    (∀ qtype counts, type_counts !! qtype = Some counts →
       ∃ b, Report.per_type a !! qtype = Some b ∧
         query_level_counts b = query_level counts ∧
         item_level_counts b = item_level counts ∧
         compute_metrics (query_level counts) = Ok (query_level_metrics b) ∧
         compute_metrics (item_level counts) = Ok (item_level_metrics b)).
Proof.
  intros _ _ _ _.
  unfold Report.analyse_counts.
  rewrite (compute_metrics_eq overall_query).
  rewrite (compute_metrics_eq overall_item). simpl.
  destruct (average_item_counts_total overall_query overall_item)
    as [avg ->]. simpl.
  destruct (per_type_analysis_keys type_counts) as (m & -> & Hnone & Hsome).
  simpl. eexists. split; [reflexivity |]. simpl.
  split; [done |]. split; [done |]. split; [done |].
  intros qtype counts Hlookup.
  destruct (Hsome qtype counts Hlookup) as (b & Hb & Han).
  exists b. split; [done |].
  by destruct (analyse_fields counts b Han) as (? & ? & ? & ? & _).
Qed.

Lemma analysis_of_counts_returns_witness :
  ∃ a, Report.analyse_counts (mkCounts 1 1 0 0) (mkCounts 4 0 0 0)
         {[ "director"%string
            := mkLevelCounts (mkCounts 1 1 0 0) (mkCounts 4 0 0 0);
            "genre"%string := zero_level ]} = Ok a ∧
    compute_metrics (mkCounts 1 1 0 0)
    = Ok (Report.overall_query_metrics a) ∧
    compute_metrics (mkCounts 4 0 0 0)
    = Ok (Report.overall_item_metrics a) ∧
    (∀ qtype,
       ({[ "director"%string
           := mkLevelCounts (mkCounts 1 1 0 0) (mkCounts 4 0 0 0);
           "genre"%string := zero_level ]} : gmap string LevelCounts)
       !! qtype = None →
       Report.per_type a !! qtype = None) ∧
    (∀ qtype counts,
       ({[ "director"%string
           := mkLevelCounts (mkCounts 1 1 0 0) (mkCounts 4 0 0 0);
           "genre"%string := zero_level ]} : gmap string LevelCounts)
       !! qtype = Some counts →
       ∃ b, Report.per_type a !! qtype = Some b ∧
         query_level_counts b = query_level counts ∧
         item_level_counts b = item_level counts ∧
         compute_metrics (query_level counts) = Ok (query_level_metrics b) ∧
         compute_metrics (item_level counts) = Ok (item_level_metrics b)).
Proof.
  apply (analysis_of_counts_returns (mkCounts 1 1 0 0) (mkCounts 4 0 0 0)
           {[ "director"%string
              := mkLevelCounts (mkCounts 1 1 0 0) (mkCounts 4 0 0 0);
              "genre"%string := zero_level ]}).
  - unfold Totals.nonneg. simpl. lia.
  - unfold Totals.nonneg. simpl. lia.
  - unfold Totals.in_double_range. simpl. lia.
  - intros qtype counts Hlookup.
    apply lookup_insert_Some in Hlookup as [[_ <-] | [_ Hlookup]].
    + unfold Totals.nonneg, Totals.in_double_range. simpl. lia.
    + apply lookup_singleton_Some in Hlookup as [_ <-].
      unfold Totals.nonneg, Totals.in_double_range. simpl. lia.
Defined.

Section Unevaluated.
Context {G : Type}.
Variable safe_query : G → string → G * result (list Row).

(** A run of skipped cases only creates buckets. *)
Lemma loop_skipped_counts (results : list DataPoint) :
  Forall (fun d => Totals.evaluated d = false) results →
  ∀ g L, ∃ L', loop safe_query g L results = Ok (g, L') ∧
    overall_query L' = overall_query L ∧
    overall_item L' = overall_item L ∧
    ∀ qtype, type_counts L' !! qtype
             = match type_counts L !! qtype with
               | Some lc => Some lc
               | None => if decide (qtype ∈ qtype_of <$> results)
                         then Some zero_level else None
               end.
Proof.
  induction 1 as [| d rest Hd _ IH]; intros g L.
  - exists L. split; [done |]. split; [done |]. split; [done |].
    intros qtype. destruct (type_counts L !! qtype); [done |].
    rewrite decide_False; [done |]. apply not_elem_of_nil.
  - simpl. rewrite (step_skip safe_query g L d Hd). simpl.
    destruct (IH g (ensure_bucket (qtype_of d) L))
      as (L' & -> & Hoq & Hoi & Htc).
    destruct (ensure_bucket_overall (qtype_of d) L) as [Hoq0 Hoi0].
    exists L'. split; [done |].
    split; [by rewrite Hoq, Hoq0 |]. split; [by rewrite Hoi, Hoi0 |].
    intros qtype. rewrite Htc, ensure_bucket_lookup.
    destruct (type_counts L !! qtype); [done |].
    destruct (decide (qtype_of d = qtype)) as [<- | Hne].
    + rewrite decide_True; [done |]. apply elem_of_cons. by left.
    + destruct (decide (qtype ∈ qtype_of <$> rest)) as [Hin | Hnin].
      * rewrite decide_True; [done |]. apply elem_of_cons. by right.
      * rewrite decide_False; [done |].
        intros Hin. apply elem_of_cons in Hin as [-> | Hin]; done.
Qed.

End Unevaluated.

(** X13.  On a data set without an evaluated case, the empty data set
    included, [main] runs no query and reports zeros only: the overall
    counts, metrics and averages are 0, and there is one bucket per
    question type that occurs, with zero counts, metrics and averages. *)
Theorem unevaluated_dataset_all_zero {G : Type}
    (safe_query : G → string → G * result (list Row))
    (g : G) (results : list DataPoint) :
  Forall (fun d => Totals.evaluated d = false) results →
  ∃ a, Report.analysis safe_query g results = Ok (g, a) ∧
    Report.overall_query_counts a = zero_counts ∧
    Report.overall_item_counts a = zero_counts ∧
    Report.overall_query_metrics a = zero_metrics ∧
    Report.overall_item_metrics a = zero_metrics ∧
    Report.avg_item_counts_overall a = mkAvgCounts 0 0 0 0 ∧
    ∀ qtype,
      Report.per_type a !! qtype
      = if decide (qtype ∈ qtype_of <$> results)
        then Some (mkAnalysis zero_counts zero_metrics zero_counts
                     zero_metrics (mkAvgCounts 0 0 0 0))
        else None.
Proof.
  intros Hskipped. unfold Report.analysis, calculate_counts.
  destruct (loop_skipped_counts safe_query results Hskipped g init_locals)
    as (L & -> & Hoq & Hoi & Htc).
  simpl. rewrite Hoq, Hoi. simpl.
  unfold Report.analyse_counts.
  change (compute_metrics zero_counts) with (Ok zero_metrics).
  change (average_item_counts zero_counts zero_counts)
    with (Ok (mkAvgCounts 0 0 0 0)).
  simpl.
  destruct (per_type_analysis_keys (type_counts L))
    as (m & -> & Hnone & Hsome).
  simpl. eexists. split; [reflexivity |]. simpl.
  do 5 (split; [done |]).
  intros qtype. specialize (Htc qtype).
  unfold init_locals in Htc. cbn [RunMetrics.type_counts] in Htc.
  rewrite lookup_empty in Htc.
  destruct (decide (qtype ∈ qtype_of <$> results)).
  - destruct (Hsome qtype zero_level Htc) as (b & -> & Hb).
    f_equal. change (analyse zero_level)
      with (Ok (mkAnalysis zero_counts zero_metrics zero_counts
                  zero_metrics (mkAvgCounts 0 0 0 0))) in Hb.
    congruence.
  - by apply Hnone.
Qed.

Lemma unevaluated_dataset_all_zero_witness :
  ∃ a, Report.analysis Scenario.safe_query tt
         [Scenario.missing_case; Scenario.missing_case] = Ok (tt, a) ∧
    Report.overall_query_counts a = zero_counts ∧
    Report.overall_item_counts a = zero_counts ∧
    Report.overall_query_metrics a = zero_metrics ∧
    Report.overall_item_metrics a = zero_metrics ∧
    Report.avg_item_counts_overall a = mkAvgCounts 0 0 0 0 ∧
    ∀ qtype,
      Report.per_type a !! qtype
      = if decide (qtype ∈ qtype_of
                     <$> [Scenario.missing_case; Scenario.missing_case])
        then Some (mkAnalysis zero_counts zero_metrics zero_counts
                     zero_metrics (mkAvgCounts 0 0 0 0))
        else None.
Proof.
  apply (unevaluated_dataset_all_zero Scenario.safe_query tt
           [Scenario.missing_case; Scenario.missing_case]).
  repeat constructor.
Defined.

(** ** The rows that [safe_query] returns *)

Section ReturnedRows.
Import GraphStore.

Lemma returned_rows_ask (res : QueryResult) (row : Row) :
  res_type res = "ASK"%string → row ∈ returned_rows res →
  ∃ b, row = AskRow b ∧ BoolItem b ∈ members res.
Proof.
  intros Hask. unfold returned_rows. rewrite Hask. simpl.
  rewrite list_elem_of_omap. intros (item & Hin & Hitem).
  destruct item as [b | cols |]; try done.
  injection Hitem as <-. by exists b.
Qed.

Lemma returned_rows_select (res : QueryResult) (row : Row) :
  res_type res ≠ "ASK"%string → row ∈ returned_rows res →
  ∃ cols, row = ResultRow cols ∧ RowItem cols ∈ members res.
Proof.
  intros Hsel. unfold returned_rows.
  apply String.eqb_neq in Hsel. rewrite Hsel.
  rewrite list_elem_of_omap. intros (item & Hin & Hitem).
  destruct item as [b | cols |]; try done.
  injection Hitem as <-. by exists cols.
Qed.

End ReturnedRows.

(** X14.  [safe_query] returns nothing but booleans for an ASK query and
    nothing but result rows for any other query, each of them a member
    of the query result; the set made of an ASK result has at most two
    members. *)
Theorem returned_rows_kinds (res : GraphStore.QueryResult) :
  (∀ row, row ∈ GraphStore.returned_rows res →
     if String.eqb (GraphStore.res_type res) "ASK"
     then ∃ b, row = AskRow b
               ∧ GraphStore.BoolItem b ∈ GraphStore.members res
     else ∃ cols, row = ResultRow cols
                  ∧ GraphStore.RowItem cols ∈ GraphStore.members res) ∧
  (if String.eqb (GraphStore.res_type res) "ASK"
   then (size (list_to_set (GraphStore.returned_rows res) : gset Row) ≤ 2)%nat
   else True).
Proof.
  destruct (String.eqb_spec (GraphStore.res_type res) "ASK") as [Hask | Hsel].
  - split; [intros row; by apply returned_rows_ask |].
    assert (Hsub : (list_to_set (GraphStore.returned_rows res) : gset Row)
                   ⊆ {[AskRow true; AskRow false]}).
    { intros row Hrow. apply elem_of_list_to_set in Hrow.
      apply (returned_rows_ask res row Hask) in Hrow as ([|] & -> & _).
      - apply elem_of_union. left. by apply elem_of_singleton.
      - apply elem_of_union. right. by apply elem_of_singleton. }
    apply subseteq_size in Hsub.
    assert (H2 : size ({[AskRow true; AskRow false]} : gset Row) = 2%nat)
      by (vm_compute; reflexivity).
    lia.
  - split; [intros row; by apply returned_rows_select | done].
Qed.

(** X15.  The rows of an ASK result and of a result of another type
    never match: compared with each other, no item is a true positive,
    every gold item is a false negative and every candidate item is a
    false positive. *)
Theorem ask_and_select_share_nothing (candidate gold : GraphStore.QueryResult) :
  String.eqb (GraphStore.res_type candidate) "ASK"
  ≠ String.eqb (GraphStore.res_type gold) "ASK" →
  let generated : gset Row := list_to_set (GraphStore.returned_rows candidate) in
  let sample : gset Row := list_to_set (GraphStore.returned_rows gold) in
  item_counts generated sample
  = (0, Z.of_nat (size sample), Z.of_nat (size generated)).
Proof.
  intros Hkinds generated sample.
  assert (Hdisj : generated ## sample).
  { apply elem_of_disjoint. intros row Hg Hs.
    apply elem_of_list_to_set in Hg, Hs.
    destruct (String.eqb_spec (GraphStore.res_type candidate) "ASK")
      as [Hc | Hc];
      destruct (String.eqb_spec (GraphStore.res_type gold) "ASK")
        as [Hgd | Hgd]; try done.
    - apply (returned_rows_ask _ _ Hc) in Hg as (b & -> & _).
      by apply (returned_rows_select _ _ Hgd) in Hs as (cols & ? & _).
    - apply (returned_rows_select _ _ Hc) in Hg as (cols & -> & _).
      by apply (returned_rows_ask _ _ Hgd) in Hs as (b & ? & _). }
  unfold item_counts.
  assert (H1 : generated ∩ sample = ∅).
  { apply set_eq. intros x. rewrite elem_of_intersection.
    split; [| by intros ?%not_elem_of_empty].
    intros [? ?]. exfalso. by apply (proj1 (elem_of_disjoint _ _) Hdisj x). }
  assert (H2 : sample ∖ generated = sample).
  { apply set_eq. intros x. rewrite elem_of_difference.
    split; [by intros [? _] |]. intros Hx. split; [done |].
    intros Hg. by apply (proj1 (elem_of_disjoint _ _) Hdisj x). }
  assert (H3 : generated ∖ sample = generated).
  { apply set_eq. intros x. rewrite elem_of_difference.
    split; [by intros [? _] |]. intros Hx. split; [done |].
    intros Hs. by apply (proj1 (elem_of_disjoint _ _) Hdisj x). }
  by rewrite H1, H2, H3, size_empty.
Qed.

Lemma ask_and_select_share_nothing_witness :
  item_counts
    (list_to_set (GraphStore.returned_rows
       (GraphStore.mkQueryResult "SELECT"
          [GraphStore.RowItem ["a"%string]; GraphStore.OtherItem])))
    (list_to_set (GraphStore.returned_rows
       (GraphStore.mkQueryResult "ASK" [GraphStore.BoolItem true])))
  = (0,
     Z.of_nat (size (list_to_set (GraphStore.returned_rows
       (GraphStore.mkQueryResult "ASK" [GraphStore.BoolItem true]))
         : gset Row)),
     Z.of_nat (size (list_to_set (GraphStore.returned_rows
       (GraphStore.mkQueryResult "SELECT"
          [GraphStore.RowItem ["a"%string]; GraphStore.OtherItem]))
         : gset Row))).
Proof.
  apply (ask_and_select_share_nothing
           (GraphStore.mkQueryResult "SELECT"
              [GraphStore.RowItem ["a"%string]; GraphStore.OtherItem])
           (GraphStore.mkQueryResult "ASK" [GraphStore.BoolItem true])).
  simpl. discriminate.
Defined.

(** ** The pass of the DeepSeek script *)

Section DeepSeekPass.

(** The counts that one data point adds. *)
Lemma deepseek_fold_items (c : DeepSeek.Counts) (d : DeepSeek.DataPoint) :
  let gold := (DeepSeek.normalize d).1 in
  let cand := (DeepSeek.normalize d).2 in
  (let '(correct_answers, deepseek_answer) := DeepSeek.normalize d in
   DeepSeek.fold c (DeepSeek.item_counts correct_answers deepseek_answer))
  = DeepSeek.mkCounts
      (DeepSeek.TP c + Z.of_nat (size (gold ∩ cand)))
      (DeepSeek.FN c + Z.of_nat (size (gold ∖ cand)))
      (DeepSeek.FP c + Z.of_nat (size (cand ∖ gold))).
Proof. by destruct (DeepSeek.normalize d). Qed.

Lemma deepseek_overall_totals (results : list DeepSeek.DataPoint) :
  ∀ c c',
    foldl (fun c d =>
             let '(correct_answers, deepseek_answer) :=
               DeepSeek.normalize d in
             DeepSeek.fold c
               (DeepSeek.item_counts correct_answers deepseek_answer))
          c results = c' →
    DeepSeek.TP c' + DeepSeek.FN c'
    = DeepSeek.TP c + DeepSeek.FN c + Totals.gold_total results ∧
    DeepSeek.TP c' + DeepSeek.FP c'
    = DeepSeek.TP c + DeepSeek.FP c + Totals.candidate_total results ∧
    DeepSeek.TP c ≤ DeepSeek.TP c' ∧ DeepSeek.FN c ≤ DeepSeek.FN c' ∧
    DeepSeek.FP c ≤ DeepSeek.FP c'.
Proof.
  induction results as [| d rest IH]; intros c c' Hc'.
  - simpl in Hc'. subst c'.
    unfold Totals.gold_total, Totals.candidate_total. simpl. lia.
  - cbn [foldl] in Hc'. rewrite deepseek_fold_items in Hc'.
    apply IH in Hc' as (H1 & H2 & H3 & H4 & H5).
    cbn [DeepSeek.TP DeepSeek.FN DeepSeek.FP] in H1, H2, H3, H4, H5.
    pose proof (size_inter_difference (DeepSeek.normalize d).1
                  (DeepSeek.normalize d).2) as Hg.
    pose proof (size_inter_difference_r (DeepSeek.normalize d).2
                  (DeepSeek.normalize d).1) as Hc.
    unfold Totals.gold_total, Totals.candidate_total in *.
    cbn [sum_list_with].
    rewrite !Nat2Z.inj_add. lia.
Qed.

End DeepSeekPass.

(** X16.  The overall counts of the DeepSeek pass are non-negative, and
    they account for every answer once: TP + FN is the number of
    distinct gold answers and TP + FP the number of distinct candidate
    answers, summed over the data points after normalization. *)
Theorem deepseek_overall_accounts_for_answers
    (results : list DeepSeek.DataPoint) :
  let overall := (DeepSeek.calculate_item_metrics results).1 in
  DeepSeek.TP overall + DeepSeek.FN overall = Totals.gold_total results ∧
  DeepSeek.TP overall + DeepSeek.FP overall
  = Totals.candidate_total results ∧
  0 ≤ DeepSeek.TP overall ∧ 0 ≤ DeepSeek.FN overall ∧
  0 ≤ DeepSeek.FP overall.
Proof.
  intros overall. subst overall. unfold DeepSeek.calculate_item_metrics.
  rewrite deepseek_overall_foldl.
  destruct (deepseek_overall_totals results DeepSeek.zero_counts _ eq_refl)
    as (H1 & H2 & H3 & H4 & H5).
  cbn [DeepSeek.TP DeepSeek.FN DeepSeek.FP DeepSeek.zero_counts]
    in H1, H2, H3, H4, H5.
  lia.
Qed.

(** X17.  A data point whose gold answer is absent or not a list still
    counts against the candidate: with a candidate list every distinct
    candidate answer is a false positive; and a data point without a
    candidate answer counts every distinct gold answer as a false
    negative. *)
Theorem deepseek_one_sided_cases (qtype : option string) :
  (∀ (b : bool) (items : list string),
     let '(correct_answers, deepseek_answer) :=
       DeepSeek.normalize
         (DeepSeek.mkDataPoint qtype (Some (DeepSeek.ABool b))
            (Some (DeepSeek.AList items))) in
     DeepSeek.item_counts correct_answers deepseek_answer
     = (0, 0, Z.of_nat (size (list_to_set items : gset string)))) ∧
  (∀ items : list string,
     let '(correct_answers, deepseek_answer) :=
       DeepSeek.normalize
         (DeepSeek.mkDataPoint qtype None (Some (DeepSeek.AList items))) in
     DeepSeek.item_counts correct_answers deepseek_answer
     = (0, 0, Z.of_nat (size (list_to_set items : gset string)))) ∧
  (∀ gold : list string,
     let '(correct_answers, deepseek_answer) :=
       DeepSeek.normalize
         (DeepSeek.mkDataPoint qtype (Some (DeepSeek.AList gold)) None) in
     DeepSeek.item_counts correct_answers deepseek_answer
     = (0, Z.of_nat (size (list_to_set gold : gset string)), 0)).
Proof.
  unfold DeepSeek.normalize, DeepSeek.gold_set, DeepSeek.item_counts. simpl.
  split_and!; intros.
  - by rewrite (left_absorb_L ∅ (∩)), empty_difference_L,
      difference_empty_L, size_empty.
  - by rewrite (left_absorb_L ∅ (∩)), empty_difference_L,
      difference_empty_L, size_empty.
  - by rewrite (right_absorb_L ∅ (∩)), empty_difference_L,
      difference_empty_L, size_empty.
Qed.

Section DeepSeekBuckets.

Lemma deepseek_fold_swap3 (a : DeepSeek.Counts) (x y : DeepSeek.Counts) :
  DeepSeek.fold
    (DeepSeek.fold a (DeepSeek.TP x, DeepSeek.FN x, DeepSeek.FP x))
    (DeepSeek.TP y, DeepSeek.FN y, DeepSeek.FP y)
  = DeepSeek.fold
      (DeepSeek.fold a (DeepSeek.TP y, DeepSeek.FN y, DeepSeek.FP y))
      (DeepSeek.TP x, DeepSeek.FN x, DeepSeek.FP x).
Proof. apply deepseek_fold_swap. Qed.

Lemma deepseek_sum_insert (m : gmap string DeepSeek.Counts) (k : string)
    (x : DeepSeek.Counts) :
  m !! k = None →
  Totals.deepseek_sum_buckets (<[k := x]> m)
  = DeepSeek.fold (Totals.deepseek_sum_buckets m)
      (DeepSeek.TP x, DeepSeek.FN x, DeepSeek.FP x).
Proof.
  intros Hk. unfold Totals.deepseek_sum_buckets.
  apply (map_fold_insert_L
           (fun (_ : string) (c : DeepSeek.Counts) acc =>
              DeepSeek.fold acc
                (DeepSeek.TP c, DeepSeek.FN c, DeepSeek.FP c)));
    [| done].
  intros. symmetry. apply deepseek_fold_swap3.
Qed.

Lemma deepseek_sum_replace (m : gmap string DeepSeek.Counts) (k : string)
    (x y : DeepSeek.Counts) :
  m !! k = Some x →
  Totals.deepseek_sum_buckets m
  = DeepSeek.fold (Totals.deepseek_sum_buckets (delete k m))
      (DeepSeek.TP x, DeepSeek.FN x, DeepSeek.FP x) ∧
  Totals.deepseek_sum_buckets (alter (fun _ => y) k m)
  = DeepSeek.fold (Totals.deepseek_sum_buckets (delete k m))
      (DeepSeek.TP y, DeepSeek.FN y, DeepSeek.FP y).
Proof.
  intros Hk. split.
  - rewrite <- (deepseek_sum_insert (delete k m) k x)
      by apply lookup_delete_eq.
    by rewrite insert_delete_id.
  - rewrite <- (deepseek_sum_insert (delete k m) k y)
      by apply lookup_delete_eq.
    f_equal. apply map_eq. intros j.
    rewrite lookup_alter, lookup_insert.
    case_decide; [by rewrite Hk |]. by rewrite lookup_delete_ne.
Qed.

Lemma deepseek_ensure_bucket_sum (qtype : string)
    (m : gmap string DeepSeek.Counts) :
  Totals.deepseek_sum_buckets (DeepSeek.ensure_bucket qtype m)
  = Totals.deepseek_sum_buckets m ∧
  ∃ x, DeepSeek.ensure_bucket qtype m !! qtype = Some x.
Proof.
  unfold DeepSeek.ensure_bucket.
  destruct (m !! qtype) as [x |] eqn:Hq.
  - split; [done | by exists x].
  - split; [| exists DeepSeek.zero_counts; apply lookup_insert_eq].
    rewrite deepseek_sum_insert by done.
    destruct (Totals.deepseek_sum_buckets m). unfold DeepSeek.fold. simpl.
    f_equal; lia.
Qed.

(** A step keeps the overall counts equal to the sum of the buckets. *)
Lemma deepseek_step_sum (st : DeepSeek.Counts * gmap string DeepSeek.Counts)
    (d : DeepSeek.DataPoint) :
  st.1 = Totals.deepseek_sum_buckets st.2 →
  (DeepSeek.step st d).1 = Totals.deepseek_sum_buckets (DeepSeek.step st d).2.
Proof.
  destruct st as [o tc]. cbn [fst snd]. intros ->. unfold DeepSeek.step.
  destruct (DeepSeek.normalize d) as [gold cand].
  cbv zeta. cbn [fst snd].
  set (qtype := default "unknown"%string (DeepSeek.question_type d)).
  set (items := DeepSeek.item_counts gold cand).
  destruct (deepseek_ensure_bucket_sum qtype tc) as [Hsum [x Hx]].
  assert (Halter : alter (fun c => DeepSeek.fold c items) qtype
                     (DeepSeek.ensure_bucket qtype tc)
                   = alter (fun _ => DeepSeek.fold x items) qtype
                       (DeepSeek.ensure_bucket qtype tc)).
  { apply map_eq. intros j. rewrite !lookup_alter.
    case_decide; [by rewrite Hx | done]. }
  rewrite Halter.
  destruct (deepseek_sum_replace (DeepSeek.ensure_bucket qtype tc) qtype x
              (DeepSeek.fold x items) Hx) as [H1 H2].
  rewrite H2, <- Hsum, H1.
  destruct items as [[tp fn] fp]. unfold DeepSeek.fold. simpl.
  f_equal; lia.
Qed.

Lemma deepseek_overall_perfect (results : list DeepSeek.DataPoint) :
  Forall (fun d => (DeepSeek.normalize d).1 = (DeepSeek.normalize d).2)
         results →
  ∀ c c',
    foldl (fun c d =>
             let '(correct_answers, deepseek_answer) :=
               DeepSeek.normalize d in
             DeepSeek.fold c
               (DeepSeek.item_counts correct_answers deepseek_answer))
          c results = c' →
    DeepSeek.FN c' = DeepSeek.FN c ∧ DeepSeek.FP c' = DeepSeek.FP c.
Proof.
  induction 1 as [| d rest Hd _ IH]; intros c c' Hc'.
  - simpl in Hc'. by subst c'.
  - cbn [foldl] in Hc'. rewrite deepseek_fold_items in Hc'.
    apply IH in Hc' as [H1 H2].
    cbn [DeepSeek.FN DeepSeek.FP] in H1, H2.
    rewrite Hd, difference_diag_L, size_empty in H1, H2. lia.
Qed.

End DeepSeekBuckets.

(** X18.  After the DeepSeek pass the overall counts are the field-wise
    sums of the counts of the question type buckets. *)
Theorem deepseek_overall_is_sum_of_buckets
    (results : list DeepSeek.DataPoint) :
  (DeepSeek.calculate_item_metrics results).1
  = Totals.deepseek_sum_buckets (DeepSeek.calculate_item_metrics results).2.
Proof.
  unfold DeepSeek.calculate_item_metrics.
  assert (H : ∀ st, st.1 = Totals.deepseek_sum_buckets st.2 →
                    (foldl DeepSeek.step st results).1
                    = Totals.deepseek_sum_buckets
                        (foldl DeepSeek.step st results).2).
  { induction results as [| d rest IH]; intros st Hst; [done |].
    cbn [foldl]. apply IH. by apply deepseek_step_sum. }
  by apply H.
Qed.

(** X19.  When on every data point the normalized candidate set equals
    the normalized gold set and some gold set is not empty, the DeepSeek
    script reports a precision, a recall and an F1 score of 1. *)
Theorem deepseek_perfect_answers (results : list DeepSeek.DataPoint) :
  Forall (fun d => (DeepSeek.normalize d).1 = (DeepSeek.normalize d).2)
         results →
  Totals.gold_total results ≠ 0 →
  ∃ m, DeepSeek.compute_metrics (DeepSeek.calculate_item_metrics results).1
       = Ok m ∧
    (DeepSeek.precision m == 1)%Q ∧ (DeepSeek.recall m == 1)%Q ∧
    (DeepSeek.f1_score m == 1)%Q.
Proof.
  intros Hperfect Hgold.
  unfold DeepSeek.calculate_item_metrics. rewrite deepseek_overall_foldl.
  set (c := foldl _ DeepSeek.zero_counts results).
  destruct (deepseek_overall_perfect results Hperfect
              DeepSeek.zero_counts c eq_refl) as [Hfn Hfp].
  destruct (deepseek_overall_totals results DeepSeek.zero_counts c eq_refl)
    as (Htp & _).
  cbn [DeepSeek.TP DeepSeek.FN DeepSeek.FP DeepSeek.zero_counts]
    in Hfn, Hfp, Htp.
  assert (Htp0 : DeepSeek.TP c ≠ 0) by lia.
  eexists. split; [apply deepseek_compute_metrics_eq |]. simpl.
  rewrite Hfn, Hfp, !Z.add_0_r.
  rewrite (decide_False (P := DeepSeek.TP c = 0)) by done.
  pose proof (ratio_self (DeepSeek.TP c) Htp0) as Hone.
  split; [done |]. split; [done |].
  destruct (Qeq_dec _ 0) as [Hz | _].
  - rewrite Hone in Hz. discriminate Hz.
  - rewrite Hone. reflexivity.
Qed.

Lemma deepseek_perfect_answers_witness :
  ∃ m, DeepSeek.compute_metrics
         (DeepSeek.calculate_item_metrics
            [DeepSeek.mkDataPoint None
               (Some (DeepSeek.AList ["a"; "b"]%string))
               (Some (DeepSeek.AList ["b"; "a"; "a"]%string))]).1
       = Ok m ∧
    (DeepSeek.precision m == 1)%Q ∧ (DeepSeek.recall m == 1)%Q ∧
    (DeepSeek.f1_score m == 1)%Q.
Proof.
  apply (deepseek_perfect_answers
           [DeepSeek.mkDataPoint None
              (Some (DeepSeek.AList ["a"; "b"]%string))
              (Some (DeepSeek.AList ["b"; "a"; "a"]%string))]).
  - constructor; [| constructor]. vm_compute. reflexivity.
  - vm_compute. discriminate.
Defined.

(** ** The export of wrong data points in error.py *)

Section ExportFacts.
Context {G : Type}.
Variable safe_query : G → string → G * result (list Row).

(** A data point without both query strings is wrong, and no query is
    run for it. *)
Lemma wrong_skipped (g : G) (d : DataPoint) :
  truthy (response_of d) && truthy (sparql d) = false →
  ErrorExport.wrong safe_query g d = (g, true).
Proof.
  intros Hskip. unfold ErrorExport.wrong. rewrite Hskip.
  by destruct (response_of d), (sparql d).
Qed.

End ExportFacts.

(** X20.  Whatever the query executions do, the list that the loop of
    error.py exports is a sublist of the data set in the order of the
    data set, holds only data points of the designated question type, and
    holds every such data point that lacks a candidate or a gold query
    string. *)
Theorem exported_points {G : Type}
    (safe_query : G → string → G * result (list Row))
    (g : G) (results : list DataPoint) :
  let wrong_data_points := (ErrorExport.export_loop safe_query g results).2 in
  wrong_data_points `sublist_of` results ∧
  Forall (fun d => qtype_of d = ErrorExport.designated) wrong_data_points ∧
  ∀ d, d ∈ results → qtype_of d = ErrorExport.designated →
       truthy (response_of d) && truthy (sparql d) = false →
       d ∈ wrong_data_points.
Proof.
  revert g. induction results as [| d rest IH]; intros g.
  - simpl. split; [constructor |]. split; [constructor |].
    intros d Hd. by apply elem_of_nil in Hd.
  - cbn [ErrorExport.export_loop].
    destruct (bool_decide_reflect (qtype_of d ≠ ErrorExport.designated))
      as [Hne | Heq].
    + destruct (IH g) as (Hsub & Hall & Hin).
      split; [by apply sublist_cons |]. split; [done |].
      intros d' Hd' Hq Hskip.
      apply elem_of_cons in Hd' as [-> | Hd']; [done |]. by apply Hin.
    + assert (Hq : qtype_of d = ErrorExport.designated).
      { destruct (decide (qtype_of d = ErrorExport.designated)); [done |].
        by exfalso. }
      destruct (ErrorExport.wrong safe_query g d) as [g1 w] eqn:Hw.
      destruct (IH g1) as (Hsub & Hall & Hin).
      destruct (ErrorExport.export_loop safe_query g1 rest) as [g2 out].
      cbn [snd] in *.
      destruct w.
      * split; [by apply sublist_skip |].
        split; [by constructor |].
        intros d' Hd' Hq' Hskip.
        apply elem_of_cons in Hd' as [-> | Hd'];
          [apply elem_of_cons; by left |].
        apply elem_of_cons. right. by apply Hin.
      * split; [by apply sublist_cons |]. split; [done |].
        intros d' Hd' Hq' Hskip.
        apply elem_of_cons in Hd' as [-> | Hd']; [| by apply Hin].
        rewrite (wrong_skipped safe_query g d Hskip) in Hw. congruence.
Qed.

(** ** Both scripts on a graph store without state *)

Section PureStoreFacts.
Variable f : string → result (list Row).

Lemma matched_evaluated (d : DataPoint) (r q : string) :
  response_of d = Some r → sparql d = Some q →
  truthy (response_of d) && truthy (sparql d) = true →
  PureStore.matched f d = PureStore.agree f r q.
Proof.
  intros Hr Hq Hguard. unfold PureStore.matched.
  rewrite Hguard, Hr, Hq. done.
Qed.

Lemma matched_skipped (d : DataPoint) :
  truthy (response_of d) && truthy (sparql d) = false →
  PureStore.matched f d = false.
Proof.
  intros Hguard. unfold PureStore.matched. rewrite Hguard.
  by destruct (response_of d), (sparql d).
Qed.

(** On the store without state a data point is wrong exactly when it is
    not matched. *)
Lemma wrong_pure (d : DataPoint) :
  ErrorExport.wrong (PureStore.store f) tt d
  = (tt, negb (PureStore.matched f d)).
Proof.
  destruct (truthy (response_of d) && truthy (sparql d)) eqn:Hguard.
  - pose proof Hguard as Hg.
    apply andb_true_iff in Hg as [Hr Hq].
    apply truthy_Some in Hr as (r & Hr & _).
    apply truthy_Some in Hq as (q & Hq & _).
    rewrite (matched_evaluated d r q Hr Hq Hguard).
    unfold ErrorExport.wrong. rewrite Hguard, Hr, Hq.
    unfold PureStore.store, PureStore.agree.
    destruct (f r) as [rows1 | e1]; [| done].
    destruct (f q) as [rows2 | e2]; [| done].
    f_equal. apply bool_decide_not.
  - rewrite (matched_skipped d Hguard).
    by apply wrong_skipped.
Qed.

Lemma export_pure (results : list DataPoint) :
  ErrorExport.export_loop (PureStore.store f) tt results
  = (tt, filter (fun d => qtype_of d = ErrorExport.designated
                          ∧ PureStore.matched f d = false) results).
Proof.
  induction results as [| d rest IH]; [done |].
  cbn [ErrorExport.export_loop]. rewrite filter_cons.
  destruct (bool_decide_reflect (qtype_of d ≠ ErrorExport.designated))
    as [Hne | Heq].
  - rewrite decide_False by (intros [? _]; done). exact IH.
  - assert (Hq : qtype_of d = ErrorExport.designated).
    { destruct (decide (qtype_of d = ErrorExport.designated)); [done |].
      by exfalso. }
    rewrite wrong_pure, IH.
    destruct (PureStore.matched f d) eqn:Hm; simpl.
    + rewrite decide_False; [done |]. intros [_ ?]. done.
    + by rewrite decide_True.
Qed.

Lemma ensure_bucket_bucket_tp (qtype k : string) (L : Locals) :
  PureStore.bucket_tp (type_counts (ensure_bucket qtype L)) k
  = PureStore.bucket_tp (type_counts L) k.
Proof.
  unfold PureStore.bucket_tp. rewrite ensure_bucket_lookup.
  destruct (type_counts L !! k); [done |]. by case_decide.
Qed.

Lemma bucket_tp_alter (h fq : Counts → Counts) (delta : Z)
    (m : gmap string LevelCounts) (qtype k : string) (x : LevelCounts) :
  m !! qtype = Some x →
  (∀ c, TP (fq c) = TP c + delta) →
  PureStore.bucket_tp
    (alter (on_item_level h) qtype (alter (on_query_level fq) qtype m)) k
  = PureStore.bucket_tp m k + (if decide (qtype = k) then delta else 0).
Proof.
  intros Hx Hfq. unfold PureStore.bucket_tp.
  destruct (decide (qtype = k)) as [<- | Hk].
  - rewrite !lookup_alter_eq, Hx. simpl. apply Hfq.
  - rewrite !lookup_alter_ne by done. lia.
Qed.

(** A returning step adds a query-level TP to the bucket of a matched
    data point and to no other bucket. *)
Lemma step_pure_bucket_tp (g' : unit) (L L' : Locals) (d : DataPoint)
    (k : string) :
  step (PureStore.store f) tt L d = Ok (g', L') →
  PureStore.bucket_tp (type_counts L') k
  = PureStore.bucket_tp (type_counts L) k
    + (if decide (qtype_of d = k ∧ PureStore.matched f d = true)
       then 1 else 0).
Proof.
  intros Hstep.
  destruct (truthy (response_of d) && truthy (sparql d)) eqn:Hguard.
  - destruct (step_eval (PureStore.store f) tt L d Hguard)
      as (r & q & Hr & Hq & Heq).
    rewrite Heq in Hstep. clear Heq.
    rewrite (matched_evaluated d r q Hr Hq Hguard).
    destruct (ensure_bucket_present (qtype_of d) L) as (x & Hx & _).
    rewrite <- (ensure_bucket_bucket_tp (qtype_of d) k L).
    unfold query_eval, PureStore.store, PureStore.agree in *.
    destruct (f r) as [rows1 | e1]; [destruct (f q) as [rows2 | e2] |].
    + destruct (decide ((list_to_set rows1 : gset Row) = list_to_set rows2))
        as [Hsame | Hdiff].
      * rewrite (bool_decide_eq_true_2 _ Hsame).
        destruct (item_eval _ _) as [L2 |] eqn:Hitem; [| done].
        simpl in Hstep. injection Hstep as <- <-.
        apply item_eval_shape in Hitem as (tp & fn & fp & ->). simpl.
        rewrite (bucket_tp_alter _ incr_TP 1 _ _ k x Hx) by done.
        destruct (decide (qtype_of d = k));
          [rewrite decide_True by done
          | rewrite decide_False by (intros [? _]; done)]; lia.
      * rewrite (bool_decide_eq_false_2 _ Hdiff).
        destruct (item_eval _ _) as [L2 |] eqn:Hitem; [| done].
        simpl in Hstep. injection Hstep as <- <-.
        apply item_eval_shape in Hitem as (tp & fn & fp & ->). simpl.
        rewrite (bucket_tp_alter _ incr_FN 0 _ _ k x Hx)
          by (intros; simpl; lia).
        rewrite (decide_False (P := _ ∧ _)) by (intros [_ ?]; done).
      case_decide; lia.
    + destruct (item_eval _ _) as [L2 |] eqn:Hitem; [| done].
      simpl in Hstep. injection Hstep as <- <-.
      apply item_eval_shape in Hitem as (tp & fn & fp & ->). simpl.
      rewrite (bucket_tp_alter _ incr_FN 0 _ _ k x Hx)
        by (intros; simpl; lia).
      rewrite (decide_False (P := _ ∧ _)) by (intros [_ ?]; done).
      case_decide; lia.
    + destruct (item_eval _ _) as [L2 |] eqn:Hitem; [| done].
      simpl in Hstep. injection Hstep as <- <-.
      apply item_eval_shape in Hitem as (tp & fn & fp & ->). simpl.
      rewrite (bucket_tp_alter _ incr_FN 0 _ _ k x Hx)
        by (intros; simpl; lia).
      rewrite (decide_False (P := _ ∧ _)) by (intros [_ ?]; done).
      case_decide; lia.
  - rewrite (step_skip (PureStore.store f) tt L d Hguard) in Hstep.
    injection Hstep as <- <-.
    rewrite ensure_bucket_bucket_tp, (matched_skipped d Hguard).
    rewrite decide_False; [lia |]. intros [_ ?]. done.
Qed.

Lemma loop_pure_bucket_tp (results : list DataPoint) (k : string) :
  ∀ g' L L',
    loop (PureStore.store f) tt L results = Ok (g', L') →
    PureStore.bucket_tp (type_counts L') k
    = PureStore.bucket_tp (type_counts L) k
      + Z.of_nat (length (filter (fun d => qtype_of d = k
                                           ∧ PureStore.matched f d = true)
                                 results)).
Proof.
  induction results as [| d rest IH]; intros g' L L' Hloop.
  - simpl in Hloop. injection Hloop as <- <-. simpl. lia.
  - simpl in Hloop.
    destruct (step (PureStore.store f) tt L d) as [[[] L1] |] eqn:Hstep;
      [| done].
    simpl in Hloop.
    rewrite (IH g' L1 L' Hloop), (step_pure_bucket_tp tt L L1 d k Hstep).
    rewrite filter_cons. case_decide; [rewrite length_cons |]; lia.
Qed.

Lemma filter_matched_split (results : list DataPoint) (k : string) :
  (length (filter (fun d => qtype_of d = k ∧ PureStore.matched f d = false)
                  results)
   + length (filter (fun d => qtype_of d = k ∧ PureStore.matched f d = true)
                    results))%nat
  = length (filter (fun d => qtype_of d = k) results).
Proof.
  induction results as [| d rest IH]; [done |].
  rewrite !filter_cons.
  destruct (decide (qtype_of d = k)) as [Hk | Hk].
  - destruct (PureStore.matched f d) eqn:Hm.
    + rewrite decide_False by (intros [_ ?]; done).
      rewrite decide_True by done. simpl. lia.
    + rewrite decide_True by done.
      rewrite decide_False by (intros [_ ?]; done). simpl. lia.
  - rewrite !decide_False by (intros [? _]; done). exact IH.
Qed.

End PureStoreFacts.

(** X21.  On a graph store without state, in the counts that a pass
    returns the query-level TP of the bucket of a question type is the
    number of data points of that type that have both query strings and
    whose two queries return equal result sets. *)
Theorem bucket_tp_counts_matched
    (f : string → result (list Row)) (results : list DataPoint)
    (g' : unit) (overall_query overall_item : Counts)
    (type_counts : gmap string LevelCounts) (qtype : string) :
  calculate_counts (PureStore.store f) tt results
  = Ok (g', (overall_query, overall_item, type_counts)) →
  PureStore.bucket_tp type_counts qtype
  = Z.of_nat (length (filter (fun d => qtype_of d = qtype
                                       ∧ PureStore.matched f d = true)
                             results)).
Proof.
  intros Hcalc.
  apply calculate_counts_loop in Hcalc as (L & Hloop & _ & _ & <-).
  rewrite (loop_pure_bucket_tp f results qtype g' init_locals L Hloop).
  unfold PureStore.bucket_tp, init_locals. simpl.
  by rewrite lookup_empty.
Qed.

Lemma bucket_tp_counts_matched_witness :
  ∃ overall_query overall_item type_counts,
    calculate_counts
      (PureStore.store (fun query => (Scenario.safe_query tt query).2)) tt
      [Scenario.matching_case; Scenario.timeout_case; Scenario.genre_case]
    = Ok (tt, (overall_query, overall_item, type_counts)) ∧
    PureStore.bucket_tp type_counts "director" = 1.
Proof.
  assert (H : ∃ r, calculate_counts
      (PureStore.store (fun query => (Scenario.safe_query tt query).2)) tt
      [Scenario.matching_case; Scenario.timeout_case; Scenario.genre_case]
      = Ok (tt, r)).
  { eexists. vm_compute. reflexivity. }
  destruct H as [[[oq oi] tc] H].
  exists oq, oi, tc. split; [exact H |].
  exact (bucket_tp_counts_matched _ _ tt oq oi tc "director" H).
Defined.

(** X22.  On a graph store without state the two scripts agree: when
    the pass of run_metrics_to_csv.py returns, the data points that
    error.py exports and the query-level TPs of the bucket of the
    designated question type together are the data points of that
    type. *)
Theorem export_complements_bucket_tp
    (f : string → result (list Row)) (results : list DataPoint)
    (g' : unit) (overall_query overall_item : Counts)
    (type_counts : gmap string LevelCounts) :
  calculate_counts (PureStore.store f) tt results
  = Ok (g', (overall_query, overall_item, type_counts)) →
  Z.of_nat (length (ErrorExport.export_loop (PureStore.store f) tt results).2)
  + PureStore.bucket_tp type_counts ErrorExport.designated
  = Z.of_nat (length (filter (fun d => qtype_of d = ErrorExport.designated)
                             results)).
Proof.
  intros Hcalc.
  apply calculate_counts_loop in Hcalc as (L & Hloop & _ & _ & <-).
  rewrite (loop_pure_bucket_tp f results ErrorExport.designated
             g' init_locals L Hloop).
  rewrite export_pure. cbn [snd].
  pose proof (filter_matched_split f results ErrorExport.designated) as Hsplit.
  unfold PureStore.bucket_tp, init_locals. simpl.
  rewrite lookup_empty. simpl. lia.
Qed.

Lemma export_complements_bucket_tp_witness :
  ∃ overall_query overall_item type_counts,
    let results :=
      [mkDataPoint (Some "GOLD"%string) None (Some "GOLD"%string)
         (Some ErrorExport.designated);
       mkDataPoint (Some "SLOW"%string) None (Some "GOLD"%string)
         (Some ErrorExport.designated);
       Scenario.genre_case] in
    let store :=
      PureStore.store (fun query => (Scenario.safe_query tt query).2) in
    calculate_counts store tt results
    = Ok (tt, (overall_query, overall_item, type_counts)) ∧
    Z.of_nat (length (ErrorExport.export_loop store tt results).2)
    + PureStore.bucket_tp type_counts ErrorExport.designated
    = Z.of_nat (length (filter (fun d => qtype_of d = ErrorExport.designated)
                               results)).
Proof.
  assert (H : ∃ r, calculate_counts
      (PureStore.store (fun query => (Scenario.safe_query tt query).2)) tt
      [mkDataPoint (Some "GOLD"%string) None (Some "GOLD"%string)
         (Some ErrorExport.designated);
       mkDataPoint (Some "SLOW"%string) None (Some "GOLD"%string)
         (Some ErrorExport.designated);
       Scenario.genre_case]
      = Ok (tt, r)).
  { eexists. vm_compute. reflexivity. }
  destruct H as [[[oq oi] tc] H].
  exists oq, oi, tc. split; [exact H |].
  exact (export_complements_bucket_tp _ _ tt oq oi tc H).
Defined.
